(** * Session lifecycle and authenticated-request pipeline

    A shallow embedding of the three pieces of the hostel-booking
    front end that share the browser's [localStorage]:

    - [AuthProvider] (contexts/AuthContext): the restore effect run on
      mount, [login] and [logout];
    - the axios request interceptor (services/api), which attaches the
      bearer token;
    - the axios response interceptor, which reacts to a 401.

    JavaScript strings are sequences of UTF-16 code units, [localStorage]
    is a finite map from strings to strings, assignments to
    [window.location.href] are recorded in a log, and request
    configurations live in an object store so that the [_retry] mark set
    by the response interceptor is seen through every alias.  The code
    runs in a monad of state and exceptions; a rejected promise is a
    thrown value.

    [JSON.parse] is a recursive-descent reader of the JSON grammar.  Two
    things it does not model: a number is kept as its decimal literal
    instead of being rounded to a binary64, and the properties of an
    object are kept in creation order also when their names look like
    array indices.  Neither matters for a [User].  React's state setters
    are taken to update their cell at once. *)

From Stdlib Require Import ZArith NArith List String Ascii Decimal DecimalFacts
  DecimalPos DecimalZ Lia.
From stdpp Require Import base option gmap list.

Set Warnings "-register-all".
Local Open Scope N_scope.

(** ** JavaScript strings *)

(** A string is the list of its UTF-16 code units. *)
Abbreviation jsstring := (list N) (only parsing).

(** The code units of an ASCII literal of the source. *)
Definition js (s : string) : jsstring :=
  List.map N_of_ascii (list_ascii_of_string s).

(** [Boolean(s)] for a string: only the empty string is falsy. *)
Definition truthy (s : jsstring) : bool :=
  match s with
  | [] => false
  | _ :: _ => true
  end.

(** [s.startsWith(p)] *)
Fixpoint startsWith (p s : jsstring) : bool :=
  match p, s with
  | [], _ => true
  | _ :: _, [] => false
  | a :: p', b :: s' => (a =? b) && startsWith p' s'
  end.

(** [s.includes(p)]: [p] occurs in [s] at some position. *)
Fixpoint includes (s p : jsstring) : bool :=
  startsWith p s ||
  match s with
  | [] => false
  | _ :: s' => includes s' p
  end.

(** ** JSON values *)

(** The values [JSON.parse] can return.  A number is kept as the decimal
    literal that denotes it (no rounding to binary64 is modelled); an
    object is the list of its properties in creation order. *)
Inductive JSValue : Type :=
  | JNull
  | JBool (b : bool)
  | JNumber (d : decimal)
  | JString (s : jsstring)
  | JArray (items : list JSValue)
  | JObject (props : list (jsstring * JSValue)).

(** [obj[k] = v] on an ordinary object: an existing property keeps its
    place and takes the new value, a new one goes last. *)
Fixpoint set_prop (k : jsstring) (v : JSValue)
    (props : list (jsstring * JSValue)) : list (jsstring * JSValue) :=
  match props with
  | [] => [(k, v)]
  | (k', v') :: ps =>
      if decide (k' = k) then (k, v) :: ps else (k', v') :: set_prop k v ps
  end.

(** ** Lexical layer of JSON *)

Module Lex.

(** Code units that occur below: 9 tab, 10 line feed, 12 form feed,
    13 carriage return, 32 space, 34 double quote, 43 plus, 44 comma,
    45 minus, 46 full stop, 47 slash, 48-57 the digits, 58 colon,
    69 E, 91 and 93 the square brackets, 92 backslash, 98 b, 101 e,
    102 f, 110 n, 114 r, 116 t, 117 u, 123 and 125 the braces. *)

Definition is_ws (c : N) : bool :=
  (c =? 32) || (c =? 9) || (c =? 10) || (c =? 13).

Fixpoint skip_ws (s : jsstring) : jsstring :=
  match s with
  | c :: rest => if is_ws c then skip_ws rest else s
  | [] => []
  end.

Definition digit_of_char (c : N) : option (uint -> uint) :=
  if c =? 48 then Some D0 else if c =? 49 then Some D1
  else if c =? 50 then Some D2 else if c =? 51 then Some D3
  else if c =? 52 then Some D4 else if c =? 53 then Some D5
  else if c =? 54 then Some D6 else if c =? 55 then Some D7
  else if c =? 56 then Some D8 else if c =? 57 then Some D9
  else None.

(** The longest prefix of decimal digits, and what follows it. *)
Fixpoint digits (s : jsstring) : uint * jsstring :=
  match s with
  | c :: rest =>
      match digit_of_char c with
      | Some d => let '(u, r) := digits rest in (d u, r)
      | None => (Nil, s)
      end
  | [] => (Nil, [])
  end.

Fixpoint uint_chars (u : uint) : jsstring :=
  match u with
  | Nil => []
  | D0 u => 48 :: uint_chars u | D1 u => 49 :: uint_chars u
  | D2 u => 50 :: uint_chars u | D3 u => 51 :: uint_chars u
  | D4 u => 52 :: uint_chars u | D5 u => 53 :: uint_chars u
  | D6 u => 54 :: uint_chars u | D7 u => 55 :: uint_chars u
  | D8 u => 56 :: uint_chars u | D9 u => 57 :: uint_chars u
  end.

Definition int_chars (i : int) : jsstring :=
  match i with
  | Pos u => uint_chars u
  | Neg u => 45 :: uint_chars u
  end.

Definition hex_val (c : N) : option N :=
  if (48 <=? c) && (c <=? 57) then Some (c - 48)
  else if (97 <=? c) && (c <=? 102) then Some (c - 87)
  else if (65 <=? c) && (c <=? 70) then Some (c - 55)
  else None.

(** Lower-case hexadecimal digit of a value below 16. *)
Definition hex_char (n : N) : N :=
  if n <? 10 then 48 + n else 87 + n.

Definition hex4 (a b c d : N) : option N :=
  x ← hex_val a; y ← hex_val b; z ← hex_val c; w ← hex_val d;
  Some (((x * 16 + y) * 16 + z) * 16 + w).

(** [\uXXXX] for a code unit. *)
Definition unicode_escape (c : N) : jsstring :=
  [92; 117; hex_char (c / 4096 mod 16); hex_char (c / 256 mod 16);
   hex_char (c / 16 mod 16); hex_char (c mod 16)].

Definition is_high_surrogate (c : N) : bool := (55296 <=? c) && (c <=? 56319).
Definition is_low_surrogate (c : N) : bool := (56320 <=? c) && (c <=? 57343).

(** The character an escape [\e] other than [\u] stands for. *)
Definition simple_escape (e : N) : option N :=
  if e =? 34 then Some 34
  else if e =? 92 then Some 92
  else if e =? 47 then Some 47
  else if e =? 98 then Some 8
  else if e =? 102 then Some 12
  else if e =? 110 then Some 10
  else if e =? 114 then Some 13
  else if e =? 116 then Some 9
  else None.

(** The characters of a JSON string literal after the opening quote,
    up to and including the closing quote. *)
Fixpoint string_chars (s : jsstring) : option (jsstring * jsstring) :=
  match s with
  | [] => None
  | c :: rest =>
      if c =? 34 then Some ([], rest)
      else if c =? 92 then
        match rest with
        | [] => None
        | e :: rest' =>
            if e =? 117 then
              match rest' with
              | h1 :: h2 :: h3 :: h4 :: rest'' =>
                  u ← hex4 h1 h2 h3 h4;
                  '(str, r) ← string_chars rest'';
                  Some (u :: str, r)
              | _ => None
              end
            else
              u ← simple_escape e;
              '(str, r) ← string_chars rest';
              Some (u :: str, r)
        end
      else if c <? 32 then None
      else '(str, r) ← string_chars rest; Some (c :: str, r)
  end.

(** The two-character escape [JSON.stringify] has for a code unit. *)
Definition short_escape (c : N) : option N :=
  if c =? 8 then Some 98
  else if c =? 9 then Some 116
  else if c =? 10 then Some 110
  else if c =? 12 then Some 102
  else if c =? 13 then Some 114
  else if c =? 34 then Some 34
  else if c =? 92 then Some 92
  else None.

(** The body of a string literal as [JSON.stringify] writes it
    (QuoteJSONString without the surrounding quotes): the two-character
    escapes, [\u00XX] for the other control characters and for a
    surrogate that is not part of a pair, every other code unit as it
    is. *)
Fixpoint quote_chars (s : jsstring) : jsstring :=
  match s with
  | [] => []
  | c :: rest =>
      match short_escape c with
      | Some e => 92 :: e :: quote_chars rest
      | None =>
          if c <? 32 then unicode_escape c ++ quote_chars rest
          else if is_high_surrogate c then
            match rest with
            | d :: rest' =>
                if is_low_surrogate d then c :: d :: quote_chars rest'
                else unicode_escape c ++ quote_chars rest
            | [] => unicode_escape c
            end
          else if is_low_surrogate c then unicode_escape c ++ quote_chars rest
          else c :: quote_chars rest
      end
  end.

Definition quote (s : jsstring) : jsstring := 34 :: quote_chars s ++ [34].

(** An optional fraction: [.] followed by at least one digit. *)
Definition fraction (s : jsstring) : option (uint * jsstring) :=
  match s with
  | c :: r =>
      if c =? 46 then
        match digits r with
        | (Nil, _) => None
        | (f, r') => Some (f, r')
        end
      else Some (Nil, s)
  | [] => Some (Nil, s)
  end.

(** An optional exponent: [e] or [E], an optional sign, at least one
    digit. *)
Definition exponent (s : jsstring) : option (option int * jsstring) :=
  match s with
  | c :: r =>
      if (c =? 101) || (c =? 69) then
        let '(neg, r1) :=
          match r with
          | c' :: r' =>
              if c' =? 45 then (true, r')
              else if c' =? 43 then (false, r')
              else (false, r)
          | [] => (false, r)
          end in
        match digits r1 with
        | (Nil, _) => None
        | (e, r2) => Some (Some (if neg then Neg e else Pos e), r2)
        end
      else Some (None, s)
  | [] => Some (None, s)
  end.

(** A JSON number: [-? int frac? exp?], where [int] has no leading
    zero unless it is the single digit 0 (that is, [unorm i = i]). *)
Definition number (s : jsstring) : option (decimal * jsstring) :=
  let '(neg, s1) :=
    match s with
    | c :: r => if c =? 45 then (true, r) else (false, s)
    | [] => (false, s)
    end in
  let '(i, s2) := digits s1 in
  if uint_beq (unorm i) i then
    '(f, s3) ← fraction s2;
    '(e, s4) ← exponent s3;
    let i' := if neg then Neg i else Pos i in
    match e with
    | Some e' => Some (DecimalExp i' f e', s4)
    | None => Some (Decimal i' f, s4)
    end
  else None.

End Lex.

(** ** [JSON.parse] *)

Module JSON.
Import Lex.

(** Recursive descent over the JSON grammar.  [fuel] bounds the nesting
    of calls; every call made by a value, an element list or a member
    list is on a strictly shorter input, so the length of the text is
    always enough (see [parse]). *)
Fixpoint value (fuel : nat) (s : jsstring) : option (JSValue * jsstring) :=
  match fuel with
  | O => None
  | S fuel' =>
      let s := skip_ws s in
      match s with
      | [] => None
      | c :: rest =>
          if startsWith (js "null") s then Some (JNull, drop 4 s)
          else if startsWith (js "true") s then Some (JBool true, drop 4 s)
          else if startsWith (js "false") s then Some (JBool false, drop 5 s)
          else if c =? 34 then
            '(str, r) ← string_chars rest; Some (JString str, r)
          else if c =? 91 then
            match skip_ws rest with
            | c' :: r =>
                if c' =? 93 then Some (JArray [], r)
                else '(items, r') ← elements fuel' rest; Some (JArray items, r')
            | [] => None
            end
          else if c =? 123 then
            match skip_ws rest with
            | c' :: r =>
                if c' =? 125 then Some (JObject [], r)
                else '(props, r') ← members fuel' [] rest; Some (JObject props, r')
            | [] => None
            end
          else '(d, r) ← number s; Some (JNumber d, r)
      end
  end

(** One or more values separated by commas, then the closing bracket. *)
with elements (fuel : nat) (s : jsstring) : option (list JSValue * jsstring) :=
  match fuel with
  | O => None
  | S fuel' =>
      '(v, r) ← value fuel' s;
      match skip_ws r with
      | c :: r' =>
          if c =? 44 then
            '(vs, r'') ← elements fuel' r'; Some (v :: vs, r'')
          else if c =? 93 then Some ([v], r')
          else None
      | [] => None
      end
  end

(** One or more [string : value] members separated by commas, then the
    closing brace; [acc] holds the properties defined so far. *)
with members (fuel : nat) (acc : list (jsstring * JSValue)) (s : jsstring)
    : option (list (jsstring * JSValue) * jsstring) :=
  match fuel with
  | O => None
  | S fuel' =>
      match skip_ws s with
      | q :: r0 =>
          if q =? 34 then
            '(k, r1) ← string_chars r0;
            match skip_ws r1 with
            | colon :: r2 =>
                if colon =? 58 then
                  '(v, r3) ← value fuel' r2;
                  let acc' := set_prop k v acc in
                  match skip_ws r3 with
                  | c :: r4 =>
                      if c =? 44 then members fuel' acc' r4
                      else if c =? 125 then Some (acc', r4)
                      else None
                  | [] => None
                  end
                else None
            | [] => None
            end
          else None
      | [] => None
      end
  end.

(** [JSON.parse(text)]: [None] stands for the [SyntaxError] thrown on a
    text that is not exactly one JSON value between optional white
    space. *)
Definition parse (text : jsstring) : option JSValue :=
  match value (S (length text)) text with
  | Some (v, rest) =>
      match skip_ws rest with
      | [] => Some v
      | _ :: _ => None
      end
  | None => None
  end.

End JSON.

(** ** The [User] record and its serialization *)

Inductive Role : Type := student | provider | administrator.

(** [interface User]; [id] stands for an integer-valued number in the
    safe range, which is what prints as a plain decimal integer. *)
Record User : Type := mkUser {
  id : Z;
  username : jsstring;
  email : jsstring;
  role : Role;
}.

Definition Role_string (r : Role) : jsstring :=
  match r with
  | student => js "student"
  | provider => js "provider"
  | administrator => js "administrator"
  end.

(** The object a [User] is at run time, as a JavaScript value. *)
Definition User_value (u : User) : JSValue :=
  JObject [ (js "id", JNumber (Decimal (Z.to_int (id u)) Nil));
            (js "username", JString (username u));
            (js "email", JString (email u));
            (js "role", JString (Role_string (role u))) ].

(** [JSON.stringify(userData)] for a [User]: the four properties in
    declaration order, no white space. *)
Definition JSON_stringify (u : User) : jsstring :=
  js "{" ++ Lex.quote (js "id") ++ js ":" ++ Lex.int_chars (Z.to_int (id u)) ++
  js "," ++ Lex.quote (js "username") ++ js ":" ++ Lex.quote (username u) ++
  js "," ++ Lex.quote (js "email") ++ js ":" ++ Lex.quote (email u) ++
  js "," ++ Lex.quote (js "role") ++ js ":" ++ Lex.quote (Role_string (role u)) ++
  js "}".

(** ** The world the code runs in *)

(** React state of [AuthProvider]: the three [useState] cells.  [user]
    holds whatever value was handed to [setUser]; [JNull] is [null]. *)
Record AuthState : Type := mkAuthState {
  user : JSValue;
  token : option jsstring;
  isLoading : bool;
}.

(** An axios request configuration, as far as the interceptors read and
    write it.  A missing [_retry] property is [false]. *)
Record RequestConfig : Type := mkRequestConfig {
  url : option jsstring;
  headers : gmap (list N) (list N);
  _retry : bool;
}.

Record Response : Type := mkResponse {
  status : Z;
}.

(** The error an axios call rejects with.  [config] is a reference into
    the store of request configurations ([None] is [undefined]);
    [response] is absent for a network failure. *)
Record AxiosError : Type := mkAxiosError {
  message : jsstring;
  config : option nat;
  response : option Response;
}.

Record World : Type := mkWorld {
  (** [window.localStorage] *)
  localStorage : gmap (list N) (list N);
  (** every value assigned to [window.location.href], oldest first; each
      assignment makes the browser load that document *)
  location_href : list jsstring;
  (** the state cells of the mounted [AuthProvider] *)
  auth : AuthState;
  (** the request configuration objects, by reference *)
  configs : gmap nat RequestConfig;
}.

(** ** Computations with state and exceptions *)

Inductive Exn : Type :=
  | SyntaxError
  | TypeError
  | Reason (e : AxiosError).

Inductive Completion (A : Type) : Type :=
  | Normal (a : A)
  | Throw (x : Exn).
Arguments Normal {A} a.
Arguments Throw {A} x.

Definition JS (A : Type) : Type := World -> Completion A * World.

#[global] Instance JS_ret : MRet JS := fun A a w => (Normal a, w).

#[global] Instance JS_bind : MBind JS := fun A B k m w =>
  match m w with
  | (Normal a, w') => k a w'
  | (Throw x, w') => (Throw x, w')
  end.

Definition throw {A : Type} (x : Exn) : JS A := fun w => (Throw x, w).

(** [try { body } catch (error) { handler }] *)
Definition try_catch (body : JS unit) (handler : Exn -> JS unit) : JS unit :=
  fun w =>
    match body w with
    | (Normal a, w') => (Normal a, w')
    | (Throw x, w') => handler x w'
    end.

(** The world a computation leaves behind, and how it completes. *)
Definition exec {A : Type} (m : JS A) (w : World) : World := (m w).2.
Definition completion {A : Type} (m : JS A) (w : World) : Completion A := (m w).1.

Definition with_localStorage (f : gmap (list N) (list N) -> gmap (list N) (list N))
    (w : World) : World :=
  mkWorld (f (localStorage w)) (location_href w) (auth w) (configs w).

Definition with_auth (f : AuthState -> AuthState) (w : World) : World :=
  mkWorld (localStorage w) (location_href w) (f (auth w)) (configs w).

Definition with_configs (f : gmap nat RequestConfig -> gmap nat RequestConfig)
    (w : World) : World :=
  mkWorld (localStorage w) (location_href w) (auth w) (f (configs w)).

(** [localStorage.getItem(k)]; [None] is [null]. *)
Definition getItem (k : jsstring) : JS (option jsstring) :=
  fun w => (Normal (localStorage w !! k), w).

(** [localStorage.setItem(k, v)] *)
Definition setItem (k v : jsstring) : JS unit :=
  fun w => (Normal tt, with_localStorage (insert k v) w).

(** [localStorage.removeItem(k)] *)
Definition removeItem (k : jsstring) : JS unit :=
  fun w => (Normal tt, with_localStorage (delete k) w).

(** [window.location.href = target] *)
Definition set_location_href (target : jsstring) : JS unit :=
  fun w => (Normal tt,
            mkWorld (localStorage w) (location_href w ++ [target]) (auth w) (configs w)).

Definition setUser (v : JSValue) : JS unit :=
  fun w => (Normal tt, with_auth (fun s => mkAuthState v (token s) (isLoading s)) w).

Definition setToken (t : option jsstring) : JS unit :=
  fun w => (Normal tt, with_auth (fun s => mkAuthState (user s) t (isLoading s)) w).

Definition setIsLoading (b : bool) : JS unit :=
  fun w => (Normal tt, with_auth (fun s => mkAuthState (user s) (token s) b) w).

(** [JSON.parse(text)], throwing on a malformed text. *)
Definition JSON_parse (text : jsstring) : JS JSValue :=
  match JSON.parse text with
  | Some v => mret v
  | None => throw SyntaxError
  end.

(** ** contexts/AuthContext: [AuthProvider] *)

(** The storage keys written in the source. *)
Definition key_user : jsstring := js "user".
Definition key_access_token : jsstring := js "access_token".
Definition key_refresh_token : jsstring := js "refresh_token".

(** The initial values of the three [useState] cells. *)
Definition initial_auth : AuthState := mkAuthState JNull None true.

(** The body of the [useEffect(..., [])] of [AuthProvider]. *)
Definition restore : JS unit :=
  savedUser ← getItem key_user;
  savedToken ← getItem key_access_token;
  match savedUser, savedToken with
  | Some savedUser, Some savedToken =>
      if truthy savedUser && truthy savedToken then
        try_catch
          (v ← JSON_parse savedUser;
           setUser v;;
           setToken (Some savedToken))
          (fun error =>
             (* Clear corrupted data *)
             removeItem key_user;;
             removeItem key_access_token;;
             removeItem key_refresh_token)
      else mret tt
  | _, _ => mret tt
  end;;
  setIsLoading false.

Definition login (userData : User) (accessToken refreshToken : jsstring) : JS unit :=
  setUser (User_value userData);;
  setToken (Some accessToken);;
  setItem key_user (JSON_stringify userData);;
  setItem key_access_token accessToken;;
  setItem key_refresh_token refreshToken.

Definition logout : JS unit :=
  setUser JNull;;
  setToken None;;
  removeItem key_user;;
  removeItem key_access_token;;
  removeItem key_refresh_token;;
  (* Force page reload to clear all state and redirect to landing page *)
  set_location_href (js "/").

(** Mounting [AuthProvider]: the state cells take their initial values,
    then the effect runs. *)
Definition AuthProvider_mount : JS unit :=
  (fun w => (Normal tt, with_auth (fun _ => initial_auth) w));;
  restore.

(** The states of the session context. *)
Definition Anonymous (s : AuthState) : Prop := user s = JNull /\ token s = None.
Definition Authenticated (s : AuthState) : Prop := user s <> JNull /\ token s <> None.

(** ** services/api: the axios interceptors *)

(** Reading the properties of the object behind a reference; on
    [undefined] (or a reference to nothing) the property access throws. *)
Definition deref (r : option nat) : JS RequestConfig :=
  fun w =>
    match r ≫= (configs w !!.) with
    | Some c => (Normal c, w)
    | None => (Throw TypeError, w)
    end.

(** Writing a property of the object behind a reference: the object is
    updated in place, so every holder of the reference sees it. *)
Definition update (r : option nat) (f : RequestConfig -> RequestConfig) : JS unit :=
  fun w =>
    match r with
    | Some a =>
        match configs w !! a with
        | Some c => (Normal tt, with_configs (insert a (f c)) w)
        | None => (Throw TypeError, w)
        end
    | None => (Throw TypeError, w)
    end.

(** [config.url?.includes('/register/') || config.url?.includes('/login/')] *)
Definition isAuthEndpoint (c : RequestConfig) : bool :=
  match url c with
  | Some u => includes u (js "/register/") || includes u (js "/login/")
  | None => false
  end.

Definition header_Authorization : jsstring := js "Authorization".

(** [config.headers.Authorization = v] *)
Definition set_Authorization (v : jsstring) (c : RequestConfig) : RequestConfig :=
  mkRequestConfig (url c) (<[header_Authorization := v]> (headers c)) (_retry c).

(** [originalRequest._retry = true] *)
Definition set_retry (c : RequestConfig) : RequestConfig :=
  mkRequestConfig (url c) (headers c) true.

(** The fulfilled handler of [api.interceptors.request.use]. *)
Definition request_interceptor (config : option nat) : JS (option nat) :=
  c ← deref config;
  (if negb (isAuthEndpoint c) then
     token ← getItem key_access_token;
     match token with
     | Some token =>
         if truthy token then
           update config (set_Authorization (js "Bearer " ++ token))
         else mret tt
     | None => mret tt
     end
   else mret tt);;
  mret config.

(** [Promise.reject(error)] as the result of an [async] function. *)
Definition Promise_reject {A : Type} (error : AxiosError) : JS A :=
  throw (Reason error).

Definition status_is_401 (error : AxiosError) : bool :=
  match response error with
  | Some resp => (status resp =? 401)%Z
  | None => false
  end.

(** The fulfilled handler of [api.interceptors.response.use]. *)
Definition response_interceptor {A : Type} (response : A) : JS A := mret response.

(** The rejected handler of [api.interceptors.response.use]. *)
Definition response_error_interceptor {A : Type} (error : AxiosError) : JS A :=
  let originalRequest := config error in
  (if status_is_401 error then
     c ← deref originalRequest;
     if negb (_retry c) then
       update originalRequest set_retry;;
       refreshToken ← getItem key_refresh_token;
       match refreshToken with
       | Some refreshToken =>
           if truthy refreshToken then
             try_catch
               (removeItem key_access_token;;
                removeItem key_refresh_token;;
                removeItem key_user;;
                set_location_href (js "/login"))
               (fun refreshError =>
                  removeItem key_access_token;;
                  removeItem key_refresh_token;;
                  removeItem key_user;;
                  set_location_href (js "/login"))
           else mret tt
       | None => mret tt
       end
     else mret tt
   else mret tt);;
  Promise_reject error.

(** ** Sample worlds *)

Definition empty_world : World := mkWorld ∅ [] initial_auth ∅.

Definition sample_user : User := mkUser 0 (js "ama") (js "ama@example.com") provider.

(** A user entry that is not JSON, next to a refresh token only. *)
Definition world_corrupt_user_alone : World :=
  mkWorld (<[key_refresh_token := js "r1"]> {[ key_user := js "{bad" ]}) [] initial_auth ∅.

(** A user entry that is not JSON, next to both tokens. *)
Definition world_corrupt_user : World :=
  mkWorld (<[key_refresh_token := js "r1"]>
             (<[key_access_token := js "a1"]> {[ key_user := js "{bad" ]}))
          [] initial_auth ∅.

(** An access token without a user entry. *)
Definition world_token_alone : World :=
  mkWorld {[ key_access_token := js "a1" ]} [] initial_auth ∅.

(** Requests as the pages issue them: [api.get('/bookings/my/')] and
    [api.post('/register/student/', ...)], with the default header of the
    axios instance. *)
Definition request_bookings : RequestConfig :=
  mkRequestConfig (Some (js "/bookings/my/"))
                  {[ js "Content-Type" := js "application/json" ]} false.

Definition request_register : RequestConfig :=
  mkRequestConfig (Some (js "/register/student/"))
                  {[ js "Content-Type" := js "application/json" ]} false.

Definition sample_configs : gmap nat RequestConfig :=
  <[1%nat := request_register]> {[ 0%nat := request_bookings ]}.

(** A visitor who never logged in. *)
Definition world_anonymous : World :=
  mkWorld ∅ [] (mkAuthState JNull None false) sample_configs.

(** A session as [login] leaves it. *)
Definition world_logged_in : World :=
  exec (login sample_user (js "a1") (js "r1")) world_anonymous.

(** The rejection of request 0 with status 401. *)
Definition error_401 : AxiosError :=
  mkAxiosError (js "Request failed with status code 401") (Some 0%nat)
               (Some (mkResponse 401)).

(** The guard [savedUser && savedToken] of the restore effect, read off
    the store. *)
Definition restore_guard (w : World) : bool :=
  match localStorage w !! key_user, localStorage w !! key_access_token with
  | Some su, Some st => truthy su && truthy st
  | _, _ => false
  end.

(** The three storage entries removed. *)
Definition wipe (m : gmap (list N) (list N)) : gmap (list N) (list N) :=
  delete key_refresh_token (delete key_access_token (delete key_user m)).

(** A user entry holding the JSON text [null], next to both tokens. *)
Definition world_null_user : World :=
  mkWorld (<[key_refresh_token := js "r1"]>
             (<[key_access_token := js "a1"]> {[ key_user := js "null" ]}))
          [] initial_auth ∅.

(** ** Histories of the session context *)

(** What can happen to the session context: the provider is mounted (at
    every page load), or a page calls [login] or [logout]. *)
Inductive Event : Type :=
  | Mount
  | Login (userData : User) (accessToken refreshToken : jsstring)
  | Logout.

Definition run_event (ev : Event) : JS unit :=
  match ev with
  | Mount => AuthProvider_mount
  | Login u a r => login u a r
  | Logout => logout
  end.

Definition run_events (evs : list Event) (w : World) : World :=
  fold_left (fun w ev => exec (run_event ev) w) evs w.

(** [user] and [token] are both null or both set. *)
Definition consistent (s : AuthState) : Prop := user s = JNull <-> token s = None.

(** The stored user entry, if any, is not a JSON text of [null]. *)
Definition user_entry_not_null (m : gmap (list N) (list N)) : Prop :=
  match m !! key_user with
  | Some text => JSON.parse text <> Some JNull
  | None => True
  end.

(** ** Histories of the whole pipeline *)

(** Everything that runs against the shared store: a session event, a
    request passing the request interceptor, or a failed request passing
    the response interceptor. *)
Inductive Action : Type :=
  | Session (ev : Event)
  | Request (config : option nat)
  | ResponseError (error : AxiosError).

Definition run_action (a : Action) (w : World) : World :=
  match a with
  | Session ev => exec (run_event ev) w
  | Request config => exec (request_interceptor config) w
  | ResponseError error => exec (response_error_interceptor (A:=Response) error) w
  end.

Definition run_actions (acts : list Action) (w : World) : World :=
  fold_left (fun w a => run_action a w) acts w.

(** One of the three storage keys of the session. *)
Definition session_key (k : jsstring) : Prop :=
  k = key_user \/ k = key_access_token \/ k = key_refresh_token.

(** The three session entries are all stored or all missing. *)
Definition keys_together (m : gmap (list N) (list N)) : Prop :=
  (is_Some (m !! key_user) /\ is_Some (m !! key_access_token) /\
   is_Some (m !! key_refresh_token)) \/
  (m !! key_user = None /\ m !! key_access_token = None /\
   m !! key_refresh_token = None).

(** A user entry that is valid JSON but no user object. *)
Definition world_number_user : World :=
  mkWorld (<[key_access_token := js "a1"]> {[ key_user := js "42" ]}) [] initial_auth ∅.

(** A store with an entry of another feature next to the session. *)
Definition world_with_theme : World :=
  exec (login sample_user (js "a1") (js "r1"))
       (mkWorld {[ js "theme" := js "dark" ]} [] initial_auth sample_configs).

(** An empty access token next to a user entry. *)
Definition world_empty_token : World :=
  mkWorld (<[key_access_token := []]> {[ key_user := JSON_stringify sample_user ]})
          [] initial_auth sample_configs.

(** A rejection with status 500, and one without any response. *)
Definition error_500 : AxiosError :=
  mkAxiosError (js "Request failed with status code 500") (Some 0%nat)
               (Some (mkResponse 500)).

Definition error_network : AxiosError :=
  mkAxiosError (js "Network Error") (Some 0%nat) None.

(** ** String comparison *)

(** [a < b] on strings: the first differing code unit decides, and a
    proper prefix is smaller. *)
Fixpoint js_lt (a b : jsstring) : bool :=
  match a, b with
  | _, [] => false
  | [], _ :: _ => true
  | x :: a', y :: b' =>
      if x <? y then true else if y <? x then false else js_lt a' b'
  end.

(** [a <= b] on strings. *)
Definition js_le (a b : jsstring) : bool := negb (js_lt b a).

(** ** pages/ProviderDashboard *)

Module ProviderDashboard.



End ProviderDashboard.

(** ** pages/CreateRoomPage *)

Module CreateRoomPage.

(** What the page reads of a [File]. *)
Record File : Type := mkFile {
  size : N;
  type : jsstring;
}.

Record FormData : Type := mkFormData {
  room_number : jsstring;
  hostel_name : jsstring;
  price_per_night : jsstring;
  max_occupancy : jsstring;
  description : jsstring;
  location : jsstring;
  facilities : list Z;
  image_upload : option File;
}.

(** The state cells the form handlers write. *)
Record State : Type := mkState {
  formData : FormData;
  errors : gmap (list N) (list N);
}.

Definition initial_formData : FormData := mkFormData [] [] [] [] [] [] [] None.

Definition initial : State := mkState initial_formData ∅.

Definition with_facilities (fs : list Z) (d : FormData) : FormData :=
  mkFormData (room_number d) (hostel_name d) (price_per_night d) (max_occupancy d)
             (description d) (location d) fs (image_upload d).

Definition with_image_upload (f : option File) (d : FormData) : FormData :=
  mkFormData (room_number d) (hostel_name d) (price_per_night d) (max_occupancy d)
             (description d) (location d) (facilities d) f.

Definition set_error (k v : jsstring) (s : State) : State :=
  mkState (formData s) (<[k := v]> (errors s)).

(** [handleFileChange]; [file] is [e.target.files?.[0]]. *)
Definition handleFileChange (file : option File) (s : State) : State :=
  match file with
  | Some file =>
      (* Check file size (max 5MB) *)
      if 5 * 1024 * 1024 <? size file then
        set_error (js "image_upload") (js "File size should be less than 5MB") s
      (* Check file type *)
      else if negb (startsWith (js "image/") (type file)) then
        set_error (js "image_upload") (js "Please select an image file") s
      else
        set_error (js "image_upload") []
          (mkState (with_image_upload (Some file) (formData s)) (errors s))
  | None => s
  end.

(** [handleFacilityChange] *)
Definition handleFacilityChange (facilityId : Z) (s : State) : State :=
  let prev := formData s in
  mkState
    (with_facilities
       (if existsb (fun id => (id =? facilityId)%Z) (facilities prev)
        then List.filter (fun id => negb (id =? facilityId)%Z) (facilities prev)
        else facilities prev ++ [facilityId])
       prev)
    (errors s).

(** What a user does to the form, as far as these two handlers go. *)
Inductive Input : Type :=
  | ChooseFile (file : option File)
  | TickFacility (facilityId : Z).

Definition handle (s : State) (i : Input) : State :=
  match i with
  | ChooseFile file => handleFileChange file s
  | TickFacility facilityId => handleFacilityChange facilityId s
  end.

(** A file the form may hold: at most 5 MB, of an image type. *)
Definition acceptable (f : File) : Prop :=
  size f <= 5242880 /\ exists subtype, type f = js "image/" ++ subtype.

End CreateRoomPage.

(** ** pages/BookRoomPage *)

Module BookRoomPage.

Record BookingData : Type := mkBookingData {
  check_in_date : jsstring;
  check_out_date : jsstring;
}.

(** [validateForm]: the [newErrors] object handed to [setErrors], and the
    returned flag.  [today] is [new Date().toISOString().split('T')[0]],
    which the clock decides. *)
Definition validateForm (today : jsstring) (bookingData : BookingData)
    : gmap (list N) (list N) * bool :=
  let newErrors : gmap (list N) (list N) := ∅ in
  let newErrors :=
    if negb (truthy (check_in_date bookingData)) then
      <[js "check_in_date" := js "Check-in date is required"]> newErrors
    else if js_lt (check_in_date bookingData) today then
      <[js "check_in_date" := js "Check-in date cannot be in the past"]> newErrors
    else newErrors in
  let newErrors :=
    if negb (truthy (check_out_date bookingData)) then
      <[js "check_out_date" := js "Check-out date is required"]> newErrors
    else if js_le (check_out_date bookingData) (check_in_date bookingData) then
      <[js "check_out_date" := js "Check-out date must be after check-in date"]> newErrors
    else newErrors in
  (newErrors, (size newErrors =? 0)%nat).

End BookRoomPage.

(** ** Calendar dates as the date inputs write them *)

Record Date : Type := mkDate {
  year : N;
  month : N;
  day : N;
}.

Definition digits2 (n : N) : jsstring := [48 + n / 10; 48 + n mod 10].

Definition digits4 (n : N) : jsstring :=
  [48 + n / 1000; 48 + n / 100 mod 10; 48 + n / 10 mod 10; 48 + n mod 10].

(** [yyyy-mm-dd], the value of an [<input type="date">] and the date part
    of [toISOString()], for a year of at most four digits. *)
Definition iso (d : Date) : jsstring :=
  digits4 (year d) ++ 45 :: digits2 (month d) ++ 45 :: digits2 (day d).

Definition four_digit_year (d : Date) : Prop :=
  year d < 10000 /\ month d < 100 /\ day d < 100.

(** Earlier in the calendar. *)
Definition date_lt (a b : Date) : Prop :=
  year a < year b \/
  (year a = year b /\ (month a < month b \/ (month a = month b /\ day a < day b))).

(** ** Counting ticks on the facility boxes *)

(** How often the box of facility [f] was ticked in a run of inputs. *)
Definition ticks (f : Z) (inputs : list CreateRoomPage.Input) : nat :=
  length (List.filter (fun i =>
                         match i with
                         | CreateRoomPage.TickFacility x => (x =? f)%Z
                         | CreateRoomPage.ChooseFile _ => false
                         end) inputs).

(** Calendar order as a test. *)
Definition date_ltb (a b : Date) : bool :=
  if year a <? year b then true
  else if year b <? year a then false
  else if month a <? month b then true
  else if month b <? month a then false
  else day a <? day b.

(** ** Fuel of the JSON reader *)

(** A run that succeeds with some fuel consumes input, and succeeds with
    the same result on any fuel that is at least the number of characters
    it consumed. *)
Definition adequate {A : Type} (run : nat -> jsstring -> option (A * jsstring))
    (f : nat) : Prop :=
  forall s a r,
    run f s = Some (a, r) ->
    (length r < length s)%nat /\
    forall g, (length s - length r <= g)%nat -> run g s = Some (a, r).

(** ** Proof automation *)

(** Case analysis on the first test [c =? k] of the goal. *)
Ltac case_code c :=
  match goal with
  | |- context [c =? ?k] => destruct (N.eqb_spec c k) as [->|?]
  end.

(** * Properties *)

(** ** Reading back what [JSON.stringify] wrote *)

Module LexFacts.
Import Lex.

Lemma digit_of_char_uint_chars u rest :
  match rest with [] => True | c :: _ => digit_of_char c = None end ->
  digits (uint_chars u ++ rest) = (u, rest).
Proof.
  intros H. induction u; simpl; try (rewrite IHu; reflexivity).
  destruct rest as [|c rest]; [reflexivity|]. simpl. rewrite H. reflexivity.
Qed.

Lemma hex_val_hex_char x : x < 16 -> hex_val (hex_char x) = Some x.
Proof.
  intros H. unfold hex_val, hex_char.
  destruct (N.ltb_spec x 10).
  - replace ((48 <=? 48 + x) && (48 + x <=? 57)) with true.
    + f_equal. lia.
    + symmetry. apply andb_true_intro. split; apply N.leb_le; lia.
  - replace ((48 <=? 87 + x) && (87 + x <=? 57)) with false.
    + replace ((97 <=? 87 + x) && (87 + x <=? 102)) with true.
      * f_equal. lia.
      * symmetry. apply andb_true_intro. split; apply N.leb_le; lia.
    + symmetry. apply andb_false_iff. right. apply N.leb_gt. lia.
Qed.

Lemma hex4_unicode_escape c rest :
  c < 65536 ->
  exists h1 h2 h3 h4,
    unicode_escape c ++ rest = 92 :: 117 :: h1 :: h2 :: h3 :: h4 :: rest /\
    hex4 h1 h2 h3 h4 = Some c.
Proof.
  intros H. unfold unicode_escape. do 4 eexists. split; [reflexivity|].
  unfold hex4.
  rewrite !hex_val_hex_char by (apply N.mod_lt; discriminate). simpl.
  f_equal.
  assert (E1 : c / 256 = c / 16 / 16) by (rewrite N.Div0.div_div; reflexivity).
  assert (E2 : c / 4096 = c / 256 / 16) by (rewrite N.Div0.div_div; reflexivity).
  assert (c / 4096 < 16) by (apply N.Div0.div_lt_upper_bound; lia).
  rewrite (N.mod_small (c / 4096) 16) by assumption.
  pose proof (N.div_mod c 16 ltac:(discriminate)).
  pose proof (N.div_mod (c / 16) 16 ltac:(discriminate)).
  pose proof (N.div_mod (c / 256) 16 ltac:(discriminate)).
  rewrite <- E1 in *. rewrite <- E2 in *. lia.
Qed.

Lemma short_escape_inv c e :
  short_escape c = Some e ->
  (e =? 117) = false /\ simple_escape e = Some c.
Proof.
  unfold short_escape.
  repeat (case_code c; [simpl; intros [= <-]; split; reflexivity|]).
  discriminate.
Qed.

Lemma short_escape_none c :
  short_escape c = None -> (c =? 34) = false /\ (c =? 92) = false.
Proof.
  unfold short_escape.
  repeat (case_code c; [simpl; discriminate|]).
  intros _. split; reflexivity.
Qed.

Lemma string_chars_literal c rest :
  (c =? 34) = false -> (c =? 92) = false -> (c <? 32) = false ->
  string_chars (c :: rest) = '(str, r) ← string_chars rest; Some (c :: str, r).
Proof. intros H1 H2 H3. simpl. rewrite H1, H2, H3. reflexivity. Qed.

Lemma string_chars_escape e rest :
  (e =? 117) = false ->
  string_chars (92 :: e :: rest) =
  u ← simple_escape e; '(str, r) ← string_chars rest; Some (u :: str, r).
Proof. intros H. simpl. rewrite H. reflexivity. Qed.

Lemma string_chars_unicode h1 h2 h3 h4 rest :
  string_chars (92 :: 117 :: h1 :: h2 :: h3 :: h4 :: rest) =
  u ← hex4 h1 h2 h3 h4; '(str, r) ← string_chars rest; Some (u :: str, r).
Proof. reflexivity. Qed.

Lemma string_chars_unicode_escape c text :
  c < 65536 ->
  string_chars (unicode_escape c ++ text) =
  '(str, r) ← string_chars text; Some (c :: str, r).
Proof.
  intros H. destruct (hex4_unicode_escape c text H) as (h1 & h2 & h3 & h4 & -> & E).
  rewrite string_chars_unicode, E. reflexivity.
Qed.

Lemma surrogate_literal c :
  is_high_surrogate c || is_low_surrogate c = true ->
  (c =? 34) = false /\ (c =? 92) = false /\ (c <? 32) = false /\ c < 65536.
Proof.
  unfold is_high_surrogate, is_low_surrogate. intros H.
  assert (55296 <= c <= 57343) as [Hl Hu].
  { apply orb_true_iff in H as [H|H]; apply andb_true_iff in H as [H1 H2];
      apply N.leb_le in H1, H2; lia. }
  repeat split; [apply N.eqb_neq|apply N.eqb_neq|apply N.ltb_ge|]; lia.
Qed.

(** What [JSON.stringify] writes for a string, [JSON.parse] reads back
    as that string. *)
Lemma string_chars_quote_chars s rest :
  string_chars (quote_chars s ++ 34 :: rest) = Some (s, rest).
Proof.
  remember (length s) as n eqn:Hn.
  revert s Hn. induction (lt_wf n) as [n _ IH]. intros s Hn.
  destruct s as [|c s]; [reflexivity|]. simpl in Hn.
  assert (IH1 : string_chars (quote_chars s ++ 34 :: rest) = Some (s, rest)).
  { apply (IH (length s)); [lia | reflexivity]. }
  change (quote_chars (c :: s)) with
    (match short_escape c with
     | Some e => 92 :: e :: quote_chars s
     | None =>
         if c <? 32 then unicode_escape c ++ quote_chars s
         else if is_high_surrogate c then
           match s with
           | d :: rest' =>
               if is_low_surrogate d then c :: d :: quote_chars rest'
               else unicode_escape c ++ quote_chars s
           | [] => unicode_escape c
           end
         else if is_low_surrogate c then unicode_escape c ++ quote_chars s
         else c :: quote_chars s
     end).
  destruct (short_escape c) as [e|] eqn:Hse.
  - destruct (short_escape_inv c e Hse) as [H1 H2].
    change ((92 :: e :: quote_chars s) ++ 34 :: rest)
      with (92 :: e :: (quote_chars s ++ 34 :: rest)).
    rewrite string_chars_escape, H2 by assumption. simpl. rewrite IH1. reflexivity.
  - destruct (short_escape_none c Hse) as [H1 H2].
    destruct (N.ltb_spec c 32) as [Hlt|Hge].
    { rewrite <- app_assoc, string_chars_unicode_escape, IH1 by lia. reflexivity. }
    assert (H3 : (c <? 32) = false) by (apply N.ltb_ge; assumption).
    destruct (is_high_surrogate c) eqn:Hhi.
    + destruct (surrogate_literal c) as (_ & _ & _ & Hc); [rewrite Hhi; reflexivity|].
      destruct s as [|d s'].
      * rewrite string_chars_unicode_escape by assumption. reflexivity.
      * destruct (is_low_surrogate d) eqn:Hlo.
        -- destruct (surrogate_literal d) as (D1 & D2 & D3 & _);
             [rewrite Hlo; apply orb_true_r|].
           change ((c :: d :: quote_chars s') ++ 34 :: rest)
             with (c :: d :: (quote_chars s' ++ 34 :: rest)).
           rewrite !string_chars_literal by assumption.
           rewrite (IH (length s')); [reflexivity | simpl in Hn; lia | reflexivity].
        -- rewrite <- app_assoc, string_chars_unicode_escape, IH1 by assumption.
           reflexivity.
    + destruct (is_low_surrogate c) eqn:Hlo.
      * destruct (surrogate_literal c) as (_ & _ & _ & Hc);
          [rewrite Hlo; apply orb_true_r|].
        rewrite <- app_assoc, string_chars_unicode_escape, IH1 by assumption.
        reflexivity.
      * change ((c :: quote_chars s) ++ 34 :: rest)
          with (c :: (quote_chars s ++ 34 :: rest)).
        rewrite string_chars_literal, IH1 by assumption. reflexivity.
Qed.
End LexFacts.

Module JSONFacts.
Import Lex LexFacts JSON.

Lemma unorm_to_uint p : unorm (Pos.to_uint p) = Pos.to_uint p.
Proof.
  rewrite <- DecimalPos.Unsigned.to_of, DecimalPos.Unsigned.of_to. reflexivity.
Qed.

Lemma uint_chars_head u :
  u <> Nil -> exists d tl, uint_chars u = d :: tl /\ 48 <= d <= 57.
Proof. destruct u; [done|..]; intros _; simpl; do 2 eexists; (split; [reflexivity|lia]). Qed.

Lemma uint_beq_refl u : uint_beq u u = true.
Proof. apply internal_uint_dec_lb. reflexivity. Qed.

(** A normalised digit string followed by a comma is a number. *)
Lemma number_uint u rest :
  u <> Nil -> unorm u = u ->
  number (uint_chars u ++ 44 :: rest) = Some (Decimal (Pos u) Nil, 44 :: rest) /\
  number (45 :: uint_chars u ++ 44 :: rest) = Some (Decimal (Neg u) Nil, 44 :: rest).
Proof.
  intros Hnil Hnorm.
  assert (Hd : digits (uint_chars u ++ 44 :: rest) = (u, 44 :: rest))
    by (apply digit_of_char_uint_chars; reflexivity).
  split.
  - destruct (uint_chars_head u Hnil) as (d & tl & E & Hr).
    unfold number. rewrite E. simpl.
    replace (d =? 45) with false by (symmetry; apply N.eqb_neq; lia).
    change (d :: tl ++ 44 :: rest) with ((d :: tl) ++ 44 :: rest).
    rewrite <- E, Hd, Hnorm, uint_beq_refl. reflexivity.
  - unfold number. simpl. rewrite Hd, Hnorm, uint_beq_refl. reflexivity.
Qed.

Lemma number_int z rest :
  number (int_chars (Z.to_int z) ++ 44 :: rest) =
  Some (Decimal (Z.to_int z) Nil, 44 :: rest).
Proof.
  destruct z as [|p|p]; simpl.
  - reflexivity.
  - apply number_uint; [apply DecimalPos.Unsigned.to_uint_nonnil | apply unorm_to_uint].
  - apply number_uint; [apply DecimalPos.Unsigned.to_uint_nonnil | apply unorm_to_uint].
Qed.

Lemma int_chars_head z :
  exists d tl, int_chars (Z.to_int z) = d :: tl /\ (d = 45 \/ 48 <= d <= 57).
Proof.
  destruct z as [|p|p]; simpl.
  - do 2 eexists. split; [reflexivity|lia].
  - destruct (uint_chars_head (Pos.to_uint p)) as (d & tl & E & H);
      [apply DecimalPos.Unsigned.to_uint_nonnil|].
    exists d, tl. split; [assumption|lia].
  - do 2 eexists. split; [reflexivity|lia].
Qed.

Lemma startsWith_mismatch p d s :
  match p with
  | a :: _ => a <> d
  | [] => False
  end ->
  startsWith p (d :: s) = false.
Proof.
  destruct p as [|a p]; [done|]. intros H. simpl.
  destruct (N.eqb_spec a d); [done | reflexivity].
Qed.

(** A text that starts with a sign or a digit is read as a number. *)
Lemma value_number fuel d s :
  d = 45 \/ 48 <= d <= 57 ->
  value (S fuel) (d :: s) = '(n, r) ← number (d :: s); Some (JNumber n, r).
Proof.
  intros H.
  assert (Hws : is_ws d = false).
  { unfold is_ws. repeat (case_code d; [lia|]). reflexivity. }
  cbn [value skip_ws]. rewrite Hws.
  rewrite !startsWith_mismatch by (simpl; lia).
  repeat (case_code d; [lia|]). reflexivity.
Qed.

Lemma value_int fuel z rest :
  value (S fuel) (int_chars (Z.to_int z) ++ 44 :: rest) =
  Some (JNumber (Decimal (Z.to_int z) Nil), 44 :: rest).
Proof.
  pose proof (number_int z rest) as Hn.
  destruct (int_chars_head z) as (d & tl & E & H). rewrite E in *.
  change ((d :: tl) ++ 44 :: rest) with (d :: tl ++ 44 :: rest) in *.
  rewrite value_number, Hn by assumption. reflexivity.
Qed.

Lemma quote_app s rest : quote s ++ rest = 34 :: quote_chars s ++ 34 :: rest.
Proof. unfold quote. simpl. rewrite <- app_assoc. reflexivity. Qed.

Lemma value_string fuel s rest :
  value (S fuel) (quote s ++ rest) = Some (JString s, rest).
Proof.
  rewrite quote_app. simpl. rewrite string_chars_quote_chars. reflexivity.
Qed.

(** One member [key:value] followed by [c], which is not white space. *)
Lemma members_member fuel acc k text v c rest :
  value fuel (text ++ c :: rest) = Some (v, c :: rest) ->
  is_ws c = false ->
  members (S fuel) acc (quote k ++ 58 :: text ++ c :: rest) =
  if c =? 44 then members fuel (set_prop k v acc) rest
  else if c =? 125 then Some (set_prop k v acc, rest)
  else None.
Proof.
  intros Hv Hc. rewrite quote_app. simpl.
  rewrite string_chars_quote_chars. simpl. rewrite Hv. simpl. rewrite Hc.
  reflexivity.
Qed.

Lemma value_object fuel k text :
  value (S fuel) (123 :: quote k ++ text) =
  '(props, r) ← members fuel [] (quote k ++ text); Some (JObject props, r).
Proof. rewrite quote_app. reflexivity. Qed.

Lemma JSON_stringify_eq u :
  JSON_stringify u =
  123 :: quote (js "id") ++ 58 :: int_chars (Z.to_int (id u)) ++
  44 :: quote (js "username") ++ 58 :: quote (username u) ++
  44 :: quote (js "email") ++ 58 :: quote (email u) ++
  44 :: quote (js "role") ++ 58 :: quote (Role_string (role u)) ++ 125 :: [].
Proof. reflexivity. Qed.

Lemma value_stringify fuel u :
  value (6 + fuel) (JSON_stringify u) = Some (User_value u, []).
Proof.
  rewrite JSON_stringify_eq.
  change (6 + fuel)%nat with (S (S (S (S (S (S fuel)))))).
  rewrite value_object.
  rewrite (members_member _ _ _ _ _ 44 _ (value_int _ _ _) eq_refl).
  change (44 =? 44) with true. cbv iota.
  rewrite (members_member _ _ _ _ _ 44 _ (value_string _ _ _) eq_refl).
  change (44 =? 44) with true. cbv iota.
  rewrite (members_member _ _ _ _ _ 44 _ (value_string _ _ _) eq_refl).
  change (44 =? 44) with true. cbv iota.
  rewrite (members_member _ _ _ _ _ 125 _ (value_string _ _ _) eq_refl).
  reflexivity.
Qed.

Lemma length_quote s : (2 <= length (quote s))%nat.
Proof. unfold quote. simpl. rewrite length_app. simpl. lia. Qed.

(** [JSON.parse(JSON.stringify(u))] is the object [u]. *)
Lemma parse_stringify u : parse (JSON_stringify u) = Some (User_value u).
Proof.
  unfold parse.
  assert (H : exists n, S (length (JSON_stringify u)) = (6 + n)%nat).
  { exists (length (JSON_stringify u) - 5)%nat.
    rewrite JSON_stringify_eq. simpl length. rewrite length_app.
    pose proof (length_quote (js "id")). lia. }
  destruct H as [n ->]. rewrite value_stringify. reflexivity.
Qed.

End JSONFacts.


(** ** The fuel of the JSON reader is enough *)

Module FuelFacts.
Import Lex JSON.

Lemma skip_ws_length s : (length (skip_ws s) <= length s)%nat.
Proof. induction s as [|c s IH]; simpl; [lia|]. destruct (is_ws c); simpl; lia. Qed.

Lemma string_chars_length s str r :
  string_chars s = Some (str, r) -> (length r < length s)%nat.
Proof.
  remember (length s) as n eqn:Hn. revert s str r Hn.
  induction (lt_wf n) as [n _ IH]. intros s str r Hn H.
  destruct s as [|c s]; [discriminate|]. simpl in H, Hn.
  destruct (c =? 34); [injection H as _ <-; lia|].
  destruct (c =? 92).
  - destruct s as [|e s]; [discriminate|].
    destruct (e =? 117).
    + destruct s as [|h1 [|h2 [|h3 [|h4 s]]]]; try discriminate.
      destruct (hex4 h1 h2 h3 h4); [|discriminate]. simpl in H.
      destruct (string_chars s) as [[str' r']|] eqn:E; [|discriminate].
      injection H as _ <-. simpl in Hn.
      specialize (IH (length s) ltac:(lia) s str' r' eq_refl E). lia.
    + destruct (simple_escape e); [|discriminate]. simpl in H.
      destruct (string_chars s) as [[str' r']|] eqn:E; [|discriminate].
      injection H as _ <-. simpl in Hn.
      specialize (IH (length s) ltac:(lia) s str' r' eq_refl E). lia.
  - destruct (c <? 32); [discriminate|].
    destruct (string_chars s) as [[str' r']|] eqn:E; [|discriminate].
    injection H as _ <-.
    specialize (IH (length s) ltac:(lia) s str' r' eq_refl E). lia.
Qed.

Lemma digits_length s u r :
  digits s = (u, r) -> (length r <= length s)%nat /\ (u <> Nil -> (length r < length s)%nat).
Proof.
  revert u r. induction s as [|c s IH]; intros u r H; simpl in H.
  - injection H as <- <-. split; [lia|done].
  - destruct (digit_of_char c) as [d|].
    + destruct (digits s) as [u' r'] eqn:E. injection H as <- <-.
      destruct (IH u' r' eq_refl). simpl. split; intros; lia.
    + injection H as <- <-. split; [lia|done].
Qed.

Lemma fraction_length s f r : fraction s = Some (f, r) -> (length r <= length s)%nat.
Proof.
  unfold fraction. destruct s as [|c s]; [intros [= <- <-]; lia|].
  destruct (c =? 46); [|intros [= <- <-]; lia].
  destruct (digits s) as [u r'] eqn:E. destruct (digits_length _ _ _ E) as [H _].
  destruct u; [discriminate|..]; intros [= <- <-]; simpl; lia.
Qed.

Lemma exponent_length s e r : exponent s = Some (e, r) -> (length r <= length s)%nat.
Proof.
  unfold exponent. destruct s as [|c s]; [intros [= <- <-]; lia|].
  destruct ((c =? 101) || (c =? 69)); [|intros [= <- <-]; lia].
  destruct (match s with
            | [] => (false, s)
            | c' :: r' => if c' =? 45 then (true, r') else if c' =? 43 then (false, r') else (false, s)
            end) as [neg r1] eqn:E1.
  assert (length r1 <= length s)%nat.
  { destruct s as [|c' s']; [injection E1 as _ <-; lia|].
    destruct (c' =? 45); [injection E1 as _ <-; simpl; lia|].
    destruct (c' =? 43); injection E1 as _ <-; simpl; lia. }
  destruct (digits r1) as [u r2] eqn:E. destruct (digits_length _ _ _ E) as [H' _].
  destruct u; [discriminate|..]; intros [= <- <-]; simpl; lia.
Qed.

Lemma number_length s d r : number s = Some (d, r) -> (length r < length s)%nat.
Proof.
  unfold number.
  destruct (match s with
            | [] => (false, s)
            | c :: r => if c =? 45 then (true, r) else (false, s)
            end) as [neg s1] eqn:E1.
  assert (length s1 <= length s)%nat.
  { destruct s as [|c s']; [injection E1 as _ <-; lia|].
    destruct (c =? 45); injection E1 as _ <-; simpl; lia. }
  destruct (digits s1) as [i s2] eqn:E2.
  destruct (uint_beq (unorm i) i) eqn:Eb; [|discriminate].
  assert (i <> Nil).
  { intros ->. discriminate Eb. }
  destruct (digits_length _ _ _ E2) as [_ Hlt]. specialize (Hlt H0).
  destruct (fraction s2) as [[f s3]|] eqn:E3; [|discriminate]. simpl.
  destruct (exponent s3) as [[e s4]|] eqn:E4; [|discriminate]. simpl.
  apply fraction_length in E3. apply exponent_length in E4.
  destruct e; intros [= <- <-]; lia.
Qed.

Lemma value_unfold f s :
  value (S f) s =
  match skip_ws s with
  | [] => None
  | c :: rest =>
      if startsWith (js "null") (c :: rest) then Some (JNull, drop 4 (c :: rest))
      else if startsWith (js "true") (c :: rest) then Some (JBool true, drop 4 (c :: rest))
      else if startsWith (js "false") (c :: rest) then Some (JBool false, drop 5 (c :: rest))
      else if c =? 34 then '(str, r) ← string_chars rest; Some (JString str, r)
      else if c =? 91 then
        match skip_ws rest with
        | c' :: r =>
            if c' =? 93 then Some (JArray [], r)
            else '(items, r') ← elements f rest; Some (JArray items, r')
        | [] => None
        end
      else if c =? 123 then
        match skip_ws rest with
        | c' :: r =>
            if c' =? 125 then Some (JObject [], r)
            else '(props, r') ← members f [] rest; Some (JObject props, r')
        | [] => None
        end
      else '(d, r) ← number (c :: rest); Some (JNumber d, r)
  end.
Proof. simpl. destruct (skip_ws s); reflexivity. Qed.

Lemma elements_unfold f s :
  elements (S f) s =
  '(v, r) ← value f s;
  match skip_ws r with
  | c :: r' =>
      if c =? 44 then '(vs, r'') ← elements f r'; Some (v :: vs, r'')
      else if c =? 93 then Some ([v], r')
      else None
  | [] => None
  end.
Proof. reflexivity. Qed.

Lemma members_unfold f acc s :
  members (S f) acc s =
  match skip_ws s with
  | q :: r0 =>
      if q =? 34 then
        '(k, r1) ← string_chars r0;
        match skip_ws r1 with
        | colon :: r2 =>
            if colon =? 58 then
              '(v, r3) ← value f r2;
              match skip_ws r3 with
              | c :: r4 =>
                  if c =? 44 then members f (set_prop k v acc) r4
                  else if c =? 125 then Some (set_prop k v acc, r4)
                  else None
              | [] => None
              end
            else None
        | [] => None
        end
      else None
  | [] => None
  end.
Proof. reflexivity. Qed.

Lemma fuel_adequate f :
  adequate value f /\ adequate elements f /\
  forall acc, adequate (fun f => members f acc) f.
Proof.
  induction f as [|f (IHv & IHe & IHm)].
  { repeat split; intros; discriminate. }
  split; [|split].
  - intros s v r H. rewrite value_unfold in H.
    destruct (skip_ws s) as [|c rest] eqn:Es; [discriminate|].
    pose proof (skip_ws_length s) as Hs. rewrite Es in Hs. simpl in Hs.
    assert (Hdrop : forall n, (0 < n -> length (drop n (c :: rest)) < length s)%nat).
    { intros n Hn. rewrite length_drop. simpl. lia. }
    destruct (startsWith (js "null") (c :: rest)) eqn:E1.
    { apply (inj Some) in H. apply pair_equal_spec in H as [<- <-].
      split; [apply Hdrop; lia|].
      intros [|g] Hg; [specialize (Hdrop 4%nat); lia|].
      rewrite value_unfold, Es, E1. reflexivity. }
    destruct (startsWith (js "true") (c :: rest)) eqn:E2.
    { apply (inj Some) in H. apply pair_equal_spec in H as [<- <-].
      split; [apply Hdrop; lia|].
      intros [|g] Hg; [specialize (Hdrop 4%nat); lia|].
      rewrite value_unfold, Es, E1, E2. reflexivity. }
    destruct (startsWith (js "false") (c :: rest)) eqn:E3.
    { apply (inj Some) in H. apply pair_equal_spec in H as [<- <-].
      split; [apply Hdrop; lia|].
      intros [|g] Hg; [specialize (Hdrop 5%nat); lia|].
      rewrite value_unfold, Es, E1, E2, E3. reflexivity. }
    destruct (c =? 34) eqn:E4.
    { destruct (string_chars rest) as [[str r']|] eqn:E; [|discriminate].
      injection H as <- <-. apply string_chars_length in E as Hl.
      split; [lia|]. intros [|g] Hg; [lia|].
      rewrite value_unfold, Es, E1, E2, E3, E4, E. reflexivity. }
    destruct (c =? 91) eqn:E5.
    { destruct (skip_ws rest) as [|c' r0] eqn:Er; [discriminate|].
      pose proof (skip_ws_length rest) as Hr. rewrite Er in Hr. simpl in Hr.
      destruct (c' =? 93) eqn:E6.
      - injection H as <- <-. split; [lia|]. intros [|g] Hg; [lia|].
        rewrite value_unfold, Es, E1, E2, E3, E4, E5, Er, E6. reflexivity.
      - destruct (elements f rest) as [[items r']|] eqn:E; [|discriminate].
        injection H as <- <-. destruct (IHe _ _ _ E) as [Hl Hg'].
        split; [lia|]. intros [|g] Hg; [lia|].
        rewrite value_unfold, Es, E1, E2, E3, E4, E5, Er, E6, Hg' by lia. reflexivity. }
    destruct (c =? 123) eqn:E7.
    { destruct (skip_ws rest) as [|c' r0] eqn:Er; [discriminate|].
      pose proof (skip_ws_length rest) as Hr. rewrite Er in Hr. simpl in Hr.
      destruct (c' =? 125) eqn:E6.
      - injection H as <- <-. split; [lia|]. intros [|g] Hg; [lia|].
        rewrite value_unfold, Es, E1, E2, E3, E4, E5, E7, Er, E6. reflexivity.
      - destruct (members f [] rest) as [[props r']|] eqn:E; [|discriminate].
        injection H as <- <-. destruct (IHm _ _ _ _ E) as [Hl Hg'].
        split; [lia|]. intros [|g] Hg; [lia|].
        rewrite value_unfold, Es, E1, E2, E3, E4, E5, E7, Er, E6, Hg' by lia.
        reflexivity. }
    destruct (number (c :: rest)) as [[d r']|] eqn:E; [|discriminate].
    injection H as <- <-. apply number_length in E as Hl. simpl in Hl.
    split; [lia|]. intros [|g] Hg; [lia|].
    rewrite value_unfold, Es, E1, E2, E3, E4, E5, E7, E. reflexivity.
  - intros s vs r H. rewrite elements_unfold in H.
    destruct (value f s) as [[v r1]|] eqn:Ev; [|discriminate]. simpl in H.
    destruct (IHv _ _ _ Ev) as [Hl1 Hg1].
    destruct (skip_ws r1) as [|c r2] eqn:Er; [discriminate|].
    pose proof (skip_ws_length r1) as Hr. rewrite Er in Hr. simpl in Hr.
    destruct (c =? 44) eqn:E1.
    + destruct (elements f r2) as [[vs' r3]|] eqn:Ee; [|discriminate].
      injection H as <- <-. destruct (IHe _ _ _ Ee) as [Hl2 Hg2].
      split; [lia|]. intros [|g] Hg; [lia|].
      rewrite elements_unfold, Hg1 by lia. simpl.
      rewrite Er, E1, Hg2 by lia. reflexivity.
    + destruct (c =? 93) eqn:E2; [|discriminate].
      injection H as <- <-. split; [lia|]. intros [|g] Hg; [lia|].
      rewrite elements_unfold, Hg1 by lia. simpl. rewrite Er, E1, E2. reflexivity.
  - intros acc s ps r H. cbv beta in H. rewrite members_unfold in H.
    destruct (skip_ws s) as [|q r0] eqn:Es; [discriminate|].
    pose proof (skip_ws_length s) as Hs. rewrite Es in Hs. simpl in Hs.
    destruct (q =? 34) eqn:E1; [|discriminate].
    destruct (string_chars r0) as [[k r1]|] eqn:Ek; [|discriminate]. simpl in H.
    apply string_chars_length in Ek as Hk.
    destruct (skip_ws r1) as [|colon r2] eqn:Er1; [discriminate|].
    pose proof (skip_ws_length r1) as Hr1. rewrite Er1 in Hr1. simpl in Hr1.
    destruct (colon =? 58) eqn:E2; [|discriminate].
    destruct (value f r2) as [[v r3]|] eqn:Ev; [|discriminate]. simpl in H.
    destruct (IHv _ _ _ Ev) as [Hl3 Hg3].
    destruct (skip_ws r3) as [|c r4] eqn:Er3; [discriminate|].
    pose proof (skip_ws_length r3) as Hr3. rewrite Er3 in Hr3. simpl in Hr3.
    destruct (c =? 44) eqn:E3.
    + destruct (IHm _ _ _ _ H) as [Hl4 Hg4].
      split; [lia|]. intros [|g] Hg; [lia|]. cbv beta.
      rewrite members_unfold, Es, E1, Ek. simpl.
      rewrite Er1, E2, Hg3 by lia. simpl. rewrite Er3, E3. apply Hg4. lia.
    + destruct (c =? 125) eqn:E4; [|discriminate].
      injection H as <- <-. split; [lia|]. intros [|g] Hg; [lia|]. cbv beta.
      rewrite members_unfold, Es, E1, Ek. simpl.
      rewrite Er1, E2, Hg3 by lia. simpl. rewrite Er3, E3, E4. reflexivity.
Qed.

(** The fuel [JSON.parse] starts with is never the reason for a failure:
    a text that parses with some fuel parses, to the same value, with the
    fuel [parse] gives it. *)
Lemma parse_fuel_enough text fuel v rest :
  value fuel text = Some (v, rest) ->
  skip_ws rest = [] ->
  parse text = Some v.
Proof.
  intros H Hrest. destruct (fuel_adequate fuel) as (Hv & _ & _).
  destruct (Hv _ _ _ H) as [_ Hg]. unfold parse.
  rewrite (Hg (S (length text))) by lia. rewrite Hrest. reflexivity.
Qed.

End FuelFacts.

(** ** Storage keys *)

Lemma key_user_access : key_user <> key_access_token.
Proof. discriminate. Qed.

Lemma key_user_refresh : key_user <> key_refresh_token.
Proof. discriminate. Qed.

Lemma key_access_refresh : key_access_token <> key_refresh_token.
Proof. discriminate. Qed.

Lemma wipe_user m : wipe m !! key_user = None.
Proof.
  unfold wipe. rewrite !lookup_delete_ne by discriminate. apply lookup_delete_eq.
Qed.

Lemma wipe_access m : wipe m !! key_access_token = None.
Proof.
  unfold wipe. rewrite lookup_delete_ne by discriminate. apply lookup_delete_eq.
Qed.

Lemma wipe_refresh m : wipe m !! key_refresh_token = None.
Proof. unfold wipe. apply lookup_delete_eq. Qed.

Lemma wipe_other m k :
  k <> key_user -> k <> key_access_token -> k <> key_refresh_token ->
  wipe m !! k = m !! k.
Proof. intros H1 H2 H3. unfold wipe. rewrite !lookup_delete_ne; done. Qed.

(** Removal order does not matter: the response interceptor removes the
    keys in another order than [logout] and the restore effect. *)
Lemma wipe_reorder m :
  delete key_user (delete key_refresh_token (delete key_access_token m)) = wipe m.
Proof.
  unfold wipe. apply map_eq. intros k.
  rewrite !lookup_delete. repeat case_decide; done.
Qed.

(** ** The restore effect, case by case *)

Lemma restore_skip w :
  restore_guard w = false ->
  restore w = (Normal tt, with_auth (fun s => mkAuthState (user s) (token s) false) w).
Proof.
  unfold restore_guard. intros H. unfold restore, mbind, JS_bind, getItem. simpl.
  destruct (localStorage w !! key_user) as [su|];
    destruct (localStorage w !! key_access_token) as [st|]; try reflexivity.
  rewrite H. reflexivity.
Qed.

Lemma restore_parsed w su st v :
  localStorage w !! key_user = Some su ->
  localStorage w !! key_access_token = Some st ->
  su <> [] -> st <> [] ->
  JSON.parse su = Some v ->
  restore w = (Normal tt, with_auth (fun _ => mkAuthState v (Some st) false) w).
Proof.
  intros Hu Ht Hsu Hst Hp.
  unfold restore, mbind, JS_bind, getItem, try_catch, JSON_parse. simpl.
  rewrite Hu, Ht. destruct su; [done|]. destruct st; [done|]. simpl.
  rewrite Hp. reflexivity.
Qed.

Lemma restore_corrupt w su st :
  localStorage w !! key_user = Some su ->
  localStorage w !! key_access_token = Some st ->
  su <> [] -> st <> [] ->
  JSON.parse su = None ->
  restore w =
  (Normal tt,
   with_auth (fun s => mkAuthState (user s) (token s) false) (with_localStorage wipe w)).
Proof.
  intros Hu Ht Hsu Hst Hp.
  unfold restore, mbind, JS_bind, getItem, try_catch, JSON_parse. simpl.
  rewrite Hu, Ht. destruct su; [done|]. destruct st; [done|]. simpl.
  rewrite Hp. reflexivity.
Qed.

Lemma mount_eq w : AuthProvider_mount w = restore (with_auth (fun _ => initial_auth) w).
Proof. reflexivity. Qed.

(** ** Startup with a corrupt or partial store *)

(** C10. If exactly one of the user entry and the access-token entry is
    in storage at startup (whatever the user entry holds), mounting
    [AuthProvider] completes normally, leaves [localStorage] as it was
    and ends with no user, no token and [isLoading] false. *)
Theorem mount_partial_store_untouched (w : World) :
  (is_Some (localStorage w !! key_user) /\ localStorage w !! key_access_token = None) \/
  (localStorage w !! key_user = None /\ is_Some (localStorage w !! key_access_token)) ->
  completion AuthProvider_mount w = Normal tt /\
  localStorage (exec AuthProvider_mount w) = localStorage w /\
  Anonymous (auth (exec AuthProvider_mount w)) /\
  isLoading (auth (exec AuthProvider_mount w)) = false.
Proof.
  intros H. unfold completion, exec. rewrite mount_eq, restore_skip.
  - repeat split.
  - unfold restore_guard. simpl.
    destruct H as [[_ ->]|[-> _]]; [destruct (localStorage w !! key_user)|]; reflexivity.
Qed.

Lemma mount_partial_store_untouched_witness :
  localStorage (exec AuthProvider_mount world_corrupt_user_alone)
    = localStorage world_corrupt_user_alone /\
  localStorage (exec AuthProvider_mount world_token_alone)
    = localStorage world_token_alone.
Proof.
  split.
  - apply (mount_partial_store_untouched world_corrupt_user_alone).
    left. split; [eexists; reflexivity | reflexivity].
  - apply (mount_partial_store_untouched world_token_alone).
    right. split; [reflexivity | eexists; reflexivity].
Defined.

(** C2, as stated, fails: a user entry that is not JSON stays in storage
    (and so does the refresh token) when no access token is stored with
    it. *)
Lemma malformed_user_alone_not_removed :
  ~ (forall (w : World) (s : jsstring),
       localStorage w !! key_user = Some s ->
       JSON.parse s = None ->
       Anonymous (auth (exec AuthProvider_mount w)) /\
       localStorage (exec AuthProvider_mount w) !! key_user = None /\
       localStorage (exec AuthProvider_mount w) !! key_access_token = None /\
       localStorage (exec AuthProvider_mount w) !! key_refresh_token = None).
Proof.
  intros H.
  destruct (H world_corrupt_user_alone (js "{bad")) as (_ & Hu & _);
    [reflexivity | reflexivity |].
  vm_compute in Hu. discriminate.
Qed.

(** C2, amended. When a non-empty user entry that is not JSON is stored
    together with a non-empty access token, mounting [AuthProvider]
    completes normally (the parse error is caught), removes the user,
    access-token and refresh-token entries, and ends with no user and no
    token. *)
Theorem mount_malformed_user_wipes (w : World) (su st : jsstring) :
  localStorage w !! key_user = Some su ->
  localStorage w !! key_access_token = Some st ->
  su <> [] -> st <> [] ->
  JSON.parse su = None ->
  completion AuthProvider_mount w = Normal tt /\
  Anonymous (auth (exec AuthProvider_mount w)) /\
  isLoading (auth (exec AuthProvider_mount w)) = false /\
  localStorage (exec AuthProvider_mount w) = wipe (localStorage w) /\
  localStorage (exec AuthProvider_mount w) !! key_user = None /\
  localStorage (exec AuthProvider_mount w) !! key_access_token = None /\
  localStorage (exec AuthProvider_mount w) !! key_refresh_token = None.
Proof.
  intros Hu Ht Hsu Hst Hp. unfold completion, exec.
  rewrite mount_eq, (restore_corrupt _ su st) by assumption. simpl.
  repeat split; auto using wipe_user, wipe_access, wipe_refresh.
Qed.

Lemma mount_malformed_user_wipes_witness :
  localStorage (exec AuthProvider_mount world_corrupt_user) = wipe (localStorage world_corrupt_user).
Proof.
  apply (mount_malformed_user_wipes world_corrupt_user (js "{bad") (js "a1"));
    [reflexivity | reflexivity | discriminate | discriminate | reflexivity].
Defined.

(** ** [login] and [logout] *)

Lemma login_eq w u a r :
  login u a r w =
  (Normal tt,
   mkWorld (<[key_refresh_token := r]>
              (<[key_access_token := a]> (<[key_user := JSON_stringify u]> (localStorage w))))
           (location_href w)
           (mkAuthState (User_value u) (Some a) (isLoading (auth w)))
           (configs w)).
Proof. reflexivity. Qed.

Lemma logout_eq w :
  logout w =
  (Normal tt,
   mkWorld (wipe (localStorage w)) (location_href w ++ [js "/"])
           (mkAuthState JNull None (isLoading (auth w))) (configs w)).
Proof. reflexivity. Qed.

(** C5. After [login(u, a, r)] the store holds the serialization of [u]
    under the user key, [a] under the access-token key and [r] under the
    refresh-token key (every other entry is as before), and the session
    context is authenticated with user [u] and token [a]. *)
Theorem login_persists_and_authenticates (w : World) (u : User) (a r : jsstring) :
  completion (login u a r) w = Normal tt /\
  localStorage (exec (login u a r) w) !! key_user = Some (JSON_stringify u) /\
  localStorage (exec (login u a r) w) !! key_access_token = Some a /\
  localStorage (exec (login u a r) w) !! key_refresh_token = Some r /\
  (forall k, k <> key_user -> k <> key_access_token -> k <> key_refresh_token ->
     localStorage (exec (login u a r) w) !! k = localStorage w !! k) /\
  user (auth (exec (login u a r) w)) = User_value u /\
  token (auth (exec (login u a r) w)) = Some a /\
  Authenticated (auth (exec (login u a r) w)).
Proof.
  unfold completion, exec. rewrite login_eq. simpl.
  split; [reflexivity|].
  split; [rewrite !lookup_insert_ne by discriminate; apply lookup_insert_eq|].
  split; [rewrite lookup_insert_ne by discriminate; apply lookup_insert_eq|].
  split; [apply lookup_insert_eq|].
  split; [intros k H1 H2 H3; rewrite !lookup_insert_ne; done|].
  repeat split; discriminate.
Qed.

(** C6. After [logout()], from any state, the store has none of the three
    keys, the in-memory user and token are null, the root path has been
    assigned to [window.location.href] (a full document load), and
    mounting the provider again finds no session. *)
Theorem logout_clears_and_reloads (w : World) :
  completion logout w = Normal tt /\
  localStorage (exec logout w) !! key_user = None /\
  localStorage (exec logout w) !! key_access_token = None /\
  localStorage (exec logout w) !! key_refresh_token = None /\
  user (auth (exec logout w)) = JNull /\
  token (auth (exec logout w)) = None /\
  location_href (exec logout w) = location_href w ++ [js "/"] /\
  Anonymous (auth (exec AuthProvider_mount (exec logout w))) /\
  localStorage (exec AuthProvider_mount (exec logout w)) = localStorage (exec logout w).
Proof.
  unfold completion, exec. rewrite logout_eq. simpl.
  rewrite mount_eq, restore_skip.
  - simpl. repeat split; auto using wipe_user, wipe_access, wipe_refresh.
  - unfold restore_guard. simpl. rewrite wipe_user. reflexivity.
Qed.

(** ** The request interceptor *)

Lemma request_interceptor_bootstrap w r c :
  configs w !! r = Some c ->
  isAuthEndpoint c = true ->
  request_interceptor (Some r) w = (Normal (Some r), w).
Proof.
  intros Hc Hb. unfold request_interceptor, mbind, JS_bind, deref. simpl.
  rewrite Hc. simpl. rewrite Hb. reflexivity.
Qed.

Lemma request_interceptor_no_token w r c :
  configs w !! r = Some c ->
  match localStorage w !! key_access_token with
  | Some t => truthy t
  | None => false
  end = false ->
  request_interceptor (Some r) w = (Normal (Some r), w).
Proof.
  intros Hc Ht. unfold request_interceptor, mbind, JS_bind, deref, getItem. simpl.
  rewrite Hc. simpl. destruct (isAuthEndpoint c); [reflexivity|]. simpl.
  destruct (localStorage w !! key_access_token) as [t|]; [|reflexivity].
  rewrite Ht. reflexivity.
Qed.

Lemma request_interceptor_token w r c t :
  configs w !! r = Some c ->
  isAuthEndpoint c = false ->
  localStorage w !! key_access_token = Some t ->
  t <> [] ->
  request_interceptor (Some r) w =
  (Normal (Some r),
   with_configs (insert r (set_Authorization (js "Bearer " ++ t) c)) w).
Proof.
  intros Hc Hb Ht Hne.
  unfold request_interceptor, mbind, JS_bind, deref, getItem, update. simpl.
  rewrite Hc. simpl. rewrite Hb. simpl. rewrite Ht.
  destruct t; [done|]. simpl. rewrite Hc. reflexivity.
Qed.

(** ** The response interceptor, case by case *)

Section ResponseError.
Context {A : Type}.
Variables (w : World) (error : AxiosError).

Lemma response_error_other :
  status_is_401 error = false ->
  response_error_interceptor (A:=A) error w = (Throw (Reason error), w).
Proof.
  intros H. unfold response_error_interceptor, mbind, JS_bind. rewrite H. reflexivity.
Qed.

Lemma response_error_no_config :
  status_is_401 error = true ->
  config error ≫= (configs w !!.) = None ->
  response_error_interceptor (A:=A) error w = (Throw TypeError, w).
Proof.
  intros H Hc. unfold response_error_interceptor, mbind at 1 2, JS_bind, deref.
  rewrite H. simpl. rewrite Hc. reflexivity.
Qed.

Variables (r : nat) (c : RequestConfig).
Hypothesis Hstatus : status_is_401 error = true.
Hypothesis Hconfig : config error = Some r.
Hypothesis Hobject : configs w !! r = Some c.

Lemma response_error_retried :
  _retry c = true ->
  response_error_interceptor (A:=A) error w = (Throw (Reason error), w).
Proof.
  intros Hr. unfold response_error_interceptor, mbind, JS_bind, deref.
  rewrite Hstatus, Hconfig. simpl. rewrite Hobject, Hr. reflexivity.
Qed.

Lemma response_error_no_refresh :
  _retry c = false ->
  match localStorage w !! key_refresh_token with
  | Some t => truthy t
  | None => false
  end = false ->
  response_error_interceptor (A:=A) error w =
  (Throw (Reason error), with_configs (insert r (set_retry c)) w).
Proof.
  intros Hr Ht. unfold response_error_interceptor, mbind, JS_bind, deref, update, getItem.
  rewrite Hstatus, Hconfig. simpl. rewrite Hobject, Hr. simpl. rewrite Hobject. simpl.
  destruct (localStorage w !! key_refresh_token) as [t|]; [|reflexivity].
  rewrite Ht. reflexivity.
Qed.

Lemma response_error_expired t :
  _retry c = false ->
  localStorage w !! key_refresh_token = Some t ->
  t <> [] ->
  response_error_interceptor (A:=A) error w =
  (Throw (Reason error),
   mkWorld (wipe (localStorage w)) (location_href w ++ [js "/login"]) (auth w)
           (<[r := set_retry c]> (configs w))).
Proof.
  intros Hr Ht Hne.
  unfold response_error_interceptor, mbind, JS_bind, deref, update, getItem, try_catch.
  rewrite Hstatus, Hconfig. simpl. rewrite Hobject, Hr. simpl. rewrite Hobject. simpl.
  rewrite Ht. destruct t; [done|]. simpl.
  unfold with_localStorage. simpl. rewrite wipe_reorder. reflexivity.
Qed.

End ResponseError.

(** ** Bearer attachment *)

(** C3. For a request to a bootstrap endpoint the interceptor changes
    nothing, so a request built without an [Authorization] header goes out
    without one even when a token is stored; for any other request, when a
    (non-empty) token [t] is stored, the request goes out with the header
    [Authorization] set to exactly [Bearer t], its other properties
    unchanged. *)
Theorem request_interceptor_bearer (w : World) (r : nat) (c : RequestConfig) :
  configs w !! r = Some c ->
  (isAuthEndpoint c = true ->
     request_interceptor (Some r) w = (Normal (Some r), w) /\
     (headers c !! header_Authorization = None ->
      forall c', configs (exec (request_interceptor (Some r)) w) !! r = Some c' ->
                 headers c' !! header_Authorization = None)) /\
  (isAuthEndpoint c = false ->
     forall t, localStorage w !! key_access_token = Some t -> t <> [] ->
       completion (request_interceptor (Some r)) w = Normal (Some r) /\
       exists c', configs (exec (request_interceptor (Some r)) w) !! r = Some c' /\
                  headers c' !! header_Authorization = Some (js "Bearer " ++ t) /\
                  (forall h, h <> header_Authorization -> headers c' !! h = headers c !! h) /\
                  url c' = url c /\ _retry c' = _retry c).
Proof.
  intros Hc. split.
  - intros Hb. unfold exec. rewrite (request_interceptor_bootstrap w r c Hc Hb).
    split; [reflexivity|]. simpl. intros Hh c' Hc'. congruence.
  - intros Hb t Ht Hne. unfold completion, exec.
    rewrite (request_interceptor_token w r c t Hc Hb Ht Hne). simpl.
    split; [reflexivity|]. eexists. split; [apply lookup_insert_eq|]. simpl.
    split; [apply lookup_insert_eq|].
    split; [intros h Hh; apply lookup_insert_ne; congruence|]. done.
Qed.

Lemma request_interceptor_bearer_witness :
  request_interceptor (Some 1%nat) world_logged_in = (Normal (Some 1%nat), world_logged_in) /\
  exists c', configs (exec (request_interceptor (Some 0%nat)) world_logged_in) !! 0%nat = Some c' /\
             headers c' !! header_Authorization = Some (js "Bearer a1").
Proof.
  split.
  - apply (request_interceptor_bearer world_logged_in 1 request_register);
      reflexivity.
  - destruct (request_interceptor_bearer world_logged_in 0 request_bookings eq_refl)
      as [_ H].
    destruct (H eq_refl (js "a1") eq_refl ltac:(discriminate)) as (_ & c' & H1 & H2 & _).
    exists c'. split; assumption.
Defined.

(** ** Authorization failures *)

(** C1. A 401 on a request not yet marked, while a (non-empty) refresh
    token is stored: the handler marks the request object as retried,
    removes the user, access-token and refresh-token entries and assigns
    the login path to [window.location.href].  Any later 401 for the same
    request object, in whatever world still holds that mark, leaves the
    store and the location alone. *)
Theorem unauthorized_handled_once (w : World) (e : AxiosError) (r : nat)
    (c : RequestConfig) (t : jsstring) :
  status_is_401 e = true ->
  config e = Some r ->
  configs w !! r = Some c ->
  _retry c = false ->
  localStorage w !! key_refresh_token = Some t ->
  t <> [] ->
  let w1 := exec (response_error_interceptor (A:=Response) e) w in
  configs w1 !! r = Some (set_retry c) /\
  localStorage w1 !! key_user = None /\
  localStorage w1 !! key_access_token = None /\
  localStorage w1 !! key_refresh_token = None /\
  location_href w1 = location_href w ++ [js "/login"] /\
  (forall (e2 : AxiosError) (w2 : World),
     status_is_401 e2 = true ->
     config e2 = Some r ->
     configs w2 !! r = configs w1 !! r ->
     localStorage (exec (response_error_interceptor (A:=Response) e2) w2) = localStorage w2 /\
     location_href (exec (response_error_interceptor (A:=Response) e2) w2) = location_href w2).
Proof.
  intros Hs He Hc Hr Ht Hne w1.
  assert (Hw1 : w1 = mkWorld (wipe (localStorage w)) (location_href w ++ [js "/login"])
                             (auth w) (<[r := set_retry c]> (configs w))).
  { unfold w1, exec. rewrite (response_error_expired w e r c Hs He Hc t Hr Ht Hne).
    reflexivity. }
  rewrite Hw1. simpl.
  split; [apply lookup_insert_eq|].
  split; [apply wipe_user|]. split; [apply wipe_access|]. split; [apply wipe_refresh|].
  split; [reflexivity|].
  intros e2 w2 Hs2 He2 Hc2. rewrite lookup_insert_eq in Hc2. unfold exec.
  rewrite (response_error_retried w2 e2 r (set_retry c) Hs2 He2 Hc2 eq_refl).
  split; reflexivity.
Qed.

Lemma unauthorized_handled_once_witness :
  let w1 := exec (response_error_interceptor (A:=Response) error_401) world_logged_in in
  localStorage w1 !! key_user = None /\
  location_href w1 = [js "/login"] /\
  (let w2 := exec (login sample_user (js "a2") (js "r2")) w1 in
   localStorage (exec (response_error_interceptor (A:=Response) error_401) w2)
   = localStorage w2).
Proof.
  destruct (unauthorized_handled_once world_logged_in error_401 0 request_bookings (js "r1"))
    as (_ & Hu & _ & _ & Hl & Hagain);
    [reflexivity | reflexivity | reflexivity | reflexivity | reflexivity | discriminate |].
  split; [exact Hu|]. split; [exact Hl|].
  apply Hagain; reflexivity.
Defined.

(** C9. The rejected handler always rejects with the error it was given,
    whatever the status, also after it has cleared the store and assigned
    the login path (for a 401 the error must carry its request object, as
    every error built from a response does). *)
Theorem response_error_propagates (w : World) (e : AxiosError) :
  (status_is_401 e = true -> is_Some (config e ≫= (configs w !!.))) ->
  completion (response_error_interceptor (A:=Response) e) w = Throw (Reason e).
Proof.
  intros H. unfold completion.
  destruct (status_is_401 e) eqn:Hs.
  - destruct (H eq_refl) as [c Hc].
    destruct (config e) as [r|] eqn:He; [|discriminate]. simpl in Hc.
    destruct (_retry c) eqn:Hr.
    + rewrite (response_error_retried w e r c); auto.
    + destruct (localStorage w !! key_refresh_token) as [t|] eqn:Ht.
      * destruct t as [|x t'].
        -- rewrite (response_error_no_refresh w e r c); auto. rewrite Ht. reflexivity.
        -- rewrite (response_error_expired w e r c Hs He Hc (x :: t')); auto.
      * rewrite (response_error_no_refresh w e r c); auto. rewrite Ht. reflexivity.
  - rewrite response_error_other; auto.
Qed.

Lemma response_error_propagates_witness :
  completion (response_error_interceptor (A:=Response) error_401) world_logged_in
  = Throw (Reason error_401) /\
  location_href (exec (response_error_interceptor (A:=Response) error_401) world_logged_in)
  = [js "/login"].
Proof.
  split.
  - apply (response_error_propagates world_logged_in error_401).
    intros _. exists request_bookings. reflexivity.
  - reflexivity.
Defined.

(** C7. A request to a non-bootstrap endpoint issued while no access
    token is stored goes out as it was built (no [Authorization] header
    is attached); if it fails with a 401 while no refresh token is stored,
    the handler removes nothing from the store, assigns nothing to
    [window.location.href] and rejects with that same error. *)
Theorem anonymous_request_unauthorized (w : World) (e : AxiosError) (r : nat)
    (c : RequestConfig) :
  configs w !! r = Some c ->
  isAuthEndpoint c = false ->
  localStorage w !! key_access_token = None ->
  localStorage w !! key_refresh_token = None ->
  config e = Some r ->
  status_is_401 e = true ->
  request_interceptor (Some r) w = (Normal (Some r), w) /\
  (headers c !! header_Authorization = None ->
   forall c', configs (exec (request_interceptor (Some r)) w) !! r = Some c' ->
              headers c' !! header_Authorization = None) /\
  let w1 := exec (request_interceptor (Some r)) w in
  completion (response_error_interceptor (A:=Response) e) w1 = Throw (Reason e) /\
  localStorage (exec (response_error_interceptor (A:=Response) e) w1) = localStorage w /\
  location_href (exec (response_error_interceptor (A:=Response) e) w1) = location_href w.
Proof.
  intros Hc Hb Ha Hrt He Hs.
  assert (Hreq : request_interceptor (Some r) w = (Normal (Some r), w)).
  { apply (request_interceptor_no_token w r c Hc). rewrite Ha. reflexivity. }
  unfold completion, exec. rewrite Hreq. simpl.
  split; [reflexivity|]. split; [intros Hh c' Hc'; congruence|].
  destruct (_retry c) eqn:Hr.
  - rewrite (response_error_retried w e r c Hs He Hc Hr). repeat split.
  - rewrite (response_error_no_refresh w e r c Hs He Hc Hr); [repeat split|].
    rewrite Hrt. reflexivity.
Qed.

Lemma anonymous_request_unauthorized_witness :
  request_interceptor (Some 0%nat) world_anonymous = (Normal (Some 0%nat), world_anonymous) /\
  localStorage (exec (response_error_interceptor (A:=Response) error_401) world_anonymous) = ∅.
Proof.
  destruct (anonymous_request_unauthorized world_anonymous error_401 0 request_bookings)
    as (H1 & _ & _ & H2 & _); try reflexivity.
  split; [exact H1 | exact H2].
Defined.

(** ** Restoring a saved session *)

Lemma JSON_stringify_nonempty u : JSON_stringify u <> [].
Proof. rewrite JSONFacts.JSON_stringify_eq. discriminate. Qed.

Lemma restore_saved w u a :
  localStorage w !! key_user = Some (JSON_stringify u) ->
  localStorage w !! key_access_token = Some a ->
  a <> [] ->
  restore w = (Normal tt, with_auth (fun _ => mkAuthState (User_value u) (Some a) false) w).
Proof.
  intros Hu Ha Hne.
  apply (restore_parsed w (JSON_stringify u) a);
    auto using JSON_stringify_nonempty, JSONFacts.parse_stringify.
Qed.

(** C4. When the store holds the serialization of [u], a non-empty access
    token [a] and a refresh token [r], mounting [AuthProvider] ends
    authenticated with user [u] and token [a], not loading, and leaves the
    store as it was.  In particular this is so in the world [login(u, a, r)]
    leaves behind. *)
Theorem mount_restores_saved_session (w : World) (u : User) (a r : jsstring) :
  a <> [] ->
  (localStorage w !! key_user = Some (JSON_stringify u) ->
   localStorage w !! key_access_token = Some a ->
   localStorage w !! key_refresh_token = Some r ->
   completion AuthProvider_mount w = Normal tt /\
   user (auth (exec AuthProvider_mount w)) = User_value u /\
   token (auth (exec AuthProvider_mount w)) = Some a /\
   isLoading (auth (exec AuthProvider_mount w)) = false /\
   Authenticated (auth (exec AuthProvider_mount w)) /\
   localStorage (exec AuthProvider_mount w) = localStorage w) /\
  (let w1 := exec (login u a r) w in
   completion AuthProvider_mount w1 = Normal tt /\
   user (auth (exec AuthProvider_mount w1)) = User_value u /\
   token (auth (exec AuthProvider_mount w1)) = Some a /\
   isLoading (auth (exec AuthProvider_mount w1)) = false /\
   Authenticated (auth (exec AuthProvider_mount w1)) /\
   localStorage (exec AuthProvider_mount w1) !! key_refresh_token = Some r /\
   localStorage (exec AuthProvider_mount w1) = localStorage w1).
Proof.
  intros Hne. split.
  - intros Hu Ha Hr. unfold completion, exec.
    rewrite mount_eq, (restore_saved _ u a) by assumption.
    simpl. repeat split; discriminate.
  - intros w1. unfold completion, exec.
    rewrite mount_eq, (restore_saved _ u a).
    + simpl. repeat split; try discriminate. apply lookup_insert_eq.
    + simpl. rewrite !lookup_insert_ne by discriminate. apply lookup_insert_eq.
    + simpl. rewrite lookup_insert_ne by discriminate. apply lookup_insert_eq.
    + assumption.
Qed.

Lemma mount_restores_saved_session_witness :
  user (auth (exec AuthProvider_mount world_logged_in)) = User_value sample_user /\
  token (auth (exec AuthProvider_mount world_logged_in)) = Some (js "a1").
Proof.
  destruct (mount_restores_saved_session world_logged_in sample_user (js "a1") (js "r1"))
    as [H _]; [discriminate|].
  destruct H as (_ & Hu & Ht & _); [reflexivity | reflexivity | reflexivity |].
  split; assumption.
Defined.

(** ** User and token are set and cleared together *)

(** C8, as stated, fails: mounting over a store whose user entry is the
    text [null] sets the token and leaves the user null. *)
Lemma mount_null_user_inconsistent :
  ~ (forall (w : World) (ev : Event),
       consistent (auth w) -> consistent (auth (exec (run_event ev) w))).
Proof.
  intros H.
  destruct (H world_null_user Mount) as [Hnull _]; [split; reflexivity|].
  specialize (Hnull eq_refl). discriminate Hnull.
Qed.

Lemma run_event_invariant (ev : Event) (w : World) :
  user_entry_not_null (localStorage w) ->
  consistent (auth w) ->
  user_entry_not_null (localStorage (exec (run_event ev) w)) /\
  consistent (auth (exec (run_event ev) w)).
Proof.
  intros Hstore Hcons. unfold exec. destruct ev as [|u a r|]; simpl run_event.
  - rewrite mount_eq.
    set (w0 := with_auth (fun _ => initial_auth) w).
    assert (Hstore0 : user_entry_not_null (localStorage w0)) by exact Hstore.
    destruct (restore_guard w0) eqn:Hg.
    + unfold restore_guard in Hg. unfold user_entry_not_null in Hstore0.
      destruct (localStorage w0 !! key_user) as [su|] eqn:Hu; [|discriminate].
      destruct (localStorage w0 !! key_access_token) as [st|] eqn:Ht; [|discriminate].
      assert (su <> [] /\ st <> []) as [Hsu Hst].
      { destruct su, st; try discriminate. split; discriminate. }
      destruct (JSON.parse su) as [v|] eqn:Hp.
      * rewrite (restore_parsed w0 su st v) by assumption. split; [exact Hstore|].
        unfold consistent. simpl. split; [intros ->; congruence | discriminate].
      * rewrite (restore_corrupt w0 su st) by assumption. simpl. split.
        -- unfold user_entry_not_null. rewrite wipe_user. exact I.
        -- split; reflexivity.
    + rewrite restore_skip by assumption. simpl. split; [exact Hstore | split; reflexivity].
  - rewrite login_eq. simpl. split.
    + unfold user_entry_not_null.
      rewrite !lookup_insert_ne by discriminate. rewrite lookup_insert_eq.
      rewrite JSONFacts.parse_stringify. discriminate.
    + split; discriminate.
  - rewrite logout_eq. simpl. split.
    + unfold user_entry_not_null. rewrite wipe_user. exact I.
    + split; reflexivity.
Qed.

(** C8, amended. Starting from a consistent state over a store whose user
    entry, if any, is not a JSON text of [null] (such as an empty store, or
    one written by [login]), every state reached through mounts, logins
    and logouts has the in-memory user and token both null or both set. *)
Theorem session_user_token_together (evs : list Event) (w : World) :
  user_entry_not_null (localStorage w) ->
  consistent (auth w) ->
  consistent (auth (run_events evs w)).
Proof.
  revert w. induction evs as [|ev evs IH]; intros w Hstore Hcons; [exact Hcons|].
  simpl. destruct (run_event_invariant ev w Hstore Hcons) as [Hs Hc].
  apply IH; assumption.
Qed.

Lemma session_user_token_together_witness :
  consistent (auth (run_events
    [Mount; Login sample_user (js "a1") (js "r1"); Mount; Logout; Mount] empty_world)).
Proof.
  apply (session_user_token_together _ empty_world).
  - exact I.
  - split; reflexivity.
Defined.

(** ** Sample runs *)

Example parse_null : JSON.parse (js "null") = Some JNull.
Proof. reflexivity. Qed.

Example parse_nested :
  JSON.parse (js " [[ [1.5e3] , [] ], {} , true ] ") =
  Some (JArray [ JArray [ JArray [JNumber (DecimalExp (Pos (D1 Nil)) (D5 Nil) (Pos (D3 Nil)))];
                          JArray [] ];
                 JObject []; JBool true ]).
Proof. reflexivity. Qed.

(** A repeated key keeps its first place and its last value. *)
Example parse_repeated_key :
  JSON.parse (js "{" ++ Lex.quote (js "a") ++ js ":1," ++ Lex.quote (js "b") ++ js ":null,"
              ++ Lex.quote (js "a") ++ js ":false}") =
  Some (JObject [(js "a", JBool false); (js "b", JNull)]).
Proof. reflexivity. Qed.

Example parse_unfinished_object : JSON.parse (js "{bad") = None.
Proof. reflexivity. Qed.

Example parse_leading_zero : JSON.parse (js "01") = None.
Proof. reflexivity. Qed.

Example parse_trailing_comma : JSON.parse (js "[1,]") = None.
Proof. reflexivity. Qed.

Example parse_empty_text : JSON.parse (js "") = None.
Proof. reflexivity. Qed.

Example parse_two_values : JSON.parse (js "null null") = None.
Proof. reflexivity. Qed.

(** A line feed and a quote are escaped, a surrogate pair is kept, a lone
    surrogate is written as a [\u] escape. *)
Example quote_escapes :
  Lex.quote [97; 10; 34; 55357; 56832; 56832] =
  [34; 97; 92; 110; 92; 34; 55357; 56832] ++ js "\ude00" ++ [34].
Proof. reflexivity. Qed.

Example stringify_sample :
  JSON_stringify sample_user =
  js "{" ++ Lex.quote (js "id") ++ js ":0," ++
  Lex.quote (js "username") ++ js ":" ++ Lex.quote (js "ama") ++ js "," ++
  Lex.quote (js "email") ++ js ":" ++ Lex.quote (js "ama@example.com") ++ js "," ++
  Lex.quote (js "role") ++ js ":" ++ Lex.quote (js "provider") ++ js "}".
Proof. reflexivity. Qed.

Example register_is_bootstrap : isAuthEndpoint request_register = true.
Proof. reflexivity. Qed.

Example bookings_is_not_bootstrap : isAuthEndpoint request_bookings = false.
Proof. reflexivity. Qed.

(** The fragments carry both slashes: [/login] alone does not match. *)
Example login_page_path_is_not_bootstrap :
  isAuthEndpoint (mkRequestConfig (Some (js "/login")) ∅ false) = false.
Proof. reflexivity. Qed.

Example no_url_is_not_bootstrap :
  isAuthEndpoint (mkRequestConfig None ∅ false) = false.
Proof. reflexivity. Qed.

(** Without its request object a 401 makes the handler itself throw. *)
Example unauthorized_without_config :
  completion (response_error_interceptor (A:=Response)
                (mkAxiosError (js "Unauthorized") None (Some (mkResponse 401))))
             world_anonymous
  = Throw TypeError.
Proof. reflexivity. Qed.

(** * Further properties *)

(** ** Case analyses *)

Lemma mount_cases (w : World) :
  (restore_guard w = false /\
   AuthProvider_mount w =
   (Normal tt, mkWorld (localStorage w) (location_href w)
                       (mkAuthState JNull None false) (configs w))) \/
  (exists su st v,
     localStorage w !! key_user = Some su /\
     localStorage w !! key_access_token = Some st /\
     su <> [] /\ st <> [] /\ JSON.parse su = Some v /\
     AuthProvider_mount w =
     (Normal tt, mkWorld (localStorage w) (location_href w)
                         (mkAuthState v (Some st) false) (configs w))) \/
  (exists su st,
     localStorage w !! key_user = Some su /\
     localStorage w !! key_access_token = Some st /\
     su <> [] /\ st <> [] /\ JSON.parse su = None /\
     AuthProvider_mount w =
     (Normal tt, mkWorld (wipe (localStorage w)) (location_href w)
                         (mkAuthState JNull None false) (configs w))).
Proof.
  rewrite mount_eq. set (w0 := with_auth (fun _ => initial_auth) w).
  destruct (restore_guard w) eqn:Hg.
  - right. unfold restore_guard in Hg.
    destruct (localStorage w !! key_user) as [su|] eqn:Hu; [|discriminate].
    destruct (localStorage w !! key_access_token) as [st|] eqn:Ht; [|discriminate].
    assert (su <> [] /\ st <> []) as [Hsu Hst].
    { destruct su, st; try discriminate. split; discriminate. }
    destruct (JSON.parse su) as [v|] eqn:Hp.
    + left. exists su, st, v. repeat (split; [done|]).
      rewrite (restore_parsed w0 su st v Hu Ht Hsu Hst Hp). reflexivity.
    + right. exists su, st. repeat (split; [done|]).
      rewrite (restore_corrupt w0 su st Hu Ht Hsu Hst Hp). reflexivity.
  - left. split; [reflexivity|]. rewrite (restore_skip w0 Hg). reflexivity.
Qed.

Lemma request_interceptor_cases (w : World) (config : option nat) :
  request_interceptor config w = (Normal config, w) \/
  request_interceptor config w = (Throw TypeError, w) \/
  (exists r c t,
     config = Some r /\ configs w !! r = Some c /\ isAuthEndpoint c = false /\
     localStorage w !! key_access_token = Some t /\ t <> [] /\
     request_interceptor config w =
     (Normal config, with_configs (insert r (set_Authorization (js "Bearer " ++ t) c)) w)).
Proof.
  destruct config as [r|].
  - destruct (configs w !! r) as [c|] eqn:Hc.
    + destruct (isAuthEndpoint c) eqn:Hb.
      * left. apply (request_interceptor_bootstrap w r c); assumption.
      * destruct (localStorage w !! key_access_token) as [t|] eqn:Ht.
        -- destruct t as [|x t'].
           ++ left. apply (request_interceptor_no_token w r c Hc). rewrite Ht. reflexivity.
           ++ right. right. exists r, c, (x :: t'). repeat (split; [done|]).
              apply request_interceptor_token; done.
        -- left. apply (request_interceptor_no_token w r c Hc). rewrite Ht. reflexivity.
    + right. left. unfold request_interceptor, mbind, JS_bind, deref. simpl.
      rewrite Hc. reflexivity.
  - right. left. reflexivity.
Qed.

Lemma response_error_cases (w : World) (e : AxiosError) :
  response_error_interceptor (A:=Response) e w = (Throw (Reason e), w) \/
  response_error_interceptor (A:=Response) e w = (Throw TypeError, w) \/
  (exists r c,
     status_is_401 e = true /\ config e = Some r /\ configs w !! r = Some c /\
     _retry c = false /\
     (response_error_interceptor (A:=Response) e w =
        (Throw (Reason e), with_configs (insert r (set_retry c)) w) \/
      (exists t, localStorage w !! key_refresh_token = Some t /\ t <> [] /\
       response_error_interceptor (A:=Response) e w =
        (Throw (Reason e),
         mkWorld (wipe (localStorage w)) (location_href w ++ [js "/login"]) (auth w)
                 (<[r := set_retry c]> (configs w)))))).
Proof.
  destruct (status_is_401 e) eqn:Hs; [|left; apply response_error_other; assumption].
  destruct (config e ≫= (configs w !!.)) as [c|] eqn:Hc;
    [|right; left; apply response_error_no_config; assumption].
  destruct (config e) as [r|] eqn:He; [|discriminate]. simpl in Hc.
  destruct (_retry c) eqn:Hr; [left; apply (response_error_retried w e r c); assumption|].
  right. right. exists r, c. repeat (split; [done|]).
  destruct (localStorage w !! key_refresh_token) as [t|] eqn:Ht.
  - destruct t as [|x t'].
    + left. apply (response_error_no_refresh w e r c); auto. rewrite Ht. reflexivity.
    + right. exists (x :: t'). repeat (split; [done|]).
      apply (response_error_expired w e r c Hs He Hc (x :: t')); done.
  - left. apply (response_error_no_refresh w e r c); auto. rewrite Ht. reflexivity.
Qed.

Lemma wipe_wipe m : wipe (wipe m) = wipe m.
Proof.
  apply map_eq. intros k. unfold wipe. rewrite !lookup_delete.
  repeat case_decide; done.
Qed.

Lemma wipe_lookup m k : wipe m !! k = m !! k \/ (session_key k /\ wipe m !! k = None).
Proof.
  unfold wipe, session_key. rewrite !lookup_delete.
  repeat case_decide; subst; auto.
Qed.

Lemma wipe_login m su a r :
  wipe (<[key_refresh_token := r]> (<[key_access_token := a]> (<[key_user := su]> m)))
  = wipe m.
Proof.
  apply map_eq. intros k. unfold wipe. rewrite !lookup_delete.
  repeat case_decide; try done. rewrite !lookup_insert_ne; done.
Qed.

(** ** Mounting the provider *)

(** X1. Whatever the store holds, mounting [AuthProvider] completes
    normally with [isLoading] false, assigns nothing to
    [window.location.href], and ends either with no session, or with the
    stored access token as token over an untouched store; the store is
    left as it was or loses exactly the three session entries. *)
Theorem mount_always_completes (w : World) :
  completion AuthProvider_mount w = Normal tt /\
  isLoading (auth (exec AuthProvider_mount w)) = false /\
  location_href (exec AuthProvider_mount w) = location_href w /\
  configs (exec AuthProvider_mount w) = configs w /\
  (localStorage (exec AuthProvider_mount w) = localStorage w \/
   localStorage (exec AuthProvider_mount w) = wipe (localStorage w)) /\
  (Anonymous (auth (exec AuthProvider_mount w)) \/
   (is_Some (token (auth (exec AuthProvider_mount w))) /\
    token (auth (exec AuthProvider_mount w)) = localStorage w !! key_access_token /\
    localStorage (exec AuthProvider_mount w) = localStorage w)).
Proof.
  unfold completion, exec.
  destruct (mount_cases w) as [[_ ->]|[(su & st & v & Hu & Ht & _ & _ & _ & ->)|
                                        (su & st & _ & _ & _ & _ & _ & ->)]]; simpl.
  - repeat split; auto; left; split; reflexivity.
  - repeat split; auto; right; rewrite Ht; (split; [eauto|]); split; reflexivity.
  - repeat split; auto; left; split; reflexivity.
Qed.

(** X2. Mounting twice in a row leaves the world as mounting once: a
    second page load finds what the first one left. *)
Theorem mount_idempotent (w : World) :
  exec AuthProvider_mount (exec AuthProvider_mount w) = exec AuthProvider_mount w.
Proof.
  unfold exec.
  destruct (mount_cases w) as [[Hg ->]|[(su & st & v & Hu & Ht & Hsu & Hst & Hp & ->)|
                                         (su & st & Hu & Ht & Hsu & Hst & Hp & ->)]]; simpl.
  - rewrite mount_eq, restore_skip; [reflexivity | exact Hg].
  - rewrite mount_eq, (restore_parsed _ su st v); auto.
  - rewrite mount_eq, restore_skip; [reflexivity|].
    unfold restore_guard. simpl. rewrite wipe_user. reflexivity.
Qed.

(** X3. The restore effect does not check what it parsed: whenever the
    user entry is a JSON text of a value [v] and a non-empty access token
    is stored, [v] itself becomes the in-memory user, next to that token. *)
Theorem mount_takes_any_json_value (w : World) (su st : jsstring) (v : JSValue) :
  localStorage w !! key_user = Some su ->
  localStorage w !! key_access_token = Some st ->
  st <> [] ->
  JSON.parse su = Some v ->
  user (auth (exec AuthProvider_mount w)) = v /\
  token (auth (exec AuthProvider_mount w)) = Some st /\
  localStorage (exec AuthProvider_mount w) = localStorage w.
Proof.
  intros Hu Ht Hst Hp. unfold exec.
  assert (Hsu : su <> []) by (intros ->; discriminate Hp).
  rewrite mount_eq, (restore_parsed _ su st v); auto.
Qed.

Lemma mount_takes_any_json_value_witness :
  user (auth (exec AuthProvider_mount world_number_user))
  = JNumber (Decimal (Pos (D4 (D2 Nil))) Nil).
Proof.
  apply (mount_takes_any_json_value world_number_user (js "42") (js "a1"));
    [reflexivity | reflexivity | discriminate | reflexivity].
Defined.

(** X4. An entry that is the empty string counts as missing: if the user
    entry or the access-token entry is missing or empty, mounting leaves
    the store untouched (nothing is parsed, nothing removed) and ends
    with no session. *)
Theorem mount_missing_or_empty_entry (w : World) :
  localStorage w !! key_user = None \/ localStorage w !! key_user = Some [] \/
  localStorage w !! key_access_token = None \/
  localStorage w !! key_access_token = Some [] ->
  localStorage (exec AuthProvider_mount w) = localStorage w /\
  Anonymous (auth (exec AuthProvider_mount w)) /\
  isLoading (auth (exec AuthProvider_mount w)) = false.
Proof.
  intros H. unfold exec. rewrite mount_eq, restore_skip.
  - repeat split.
  - unfold restore_guard. simpl.
    destruct (localStorage w !! key_user) as [[|? ?]|];
      destruct (localStorage w !! key_access_token) as [[|? ?]|];
      try reflexivity; destruct H as [H|[H|[H|H]]]; discriminate H.
Qed.

Lemma mount_missing_or_empty_entry_witness :
  localStorage (exec AuthProvider_mount world_empty_token) = localStorage world_empty_token /\
  Anonymous (auth (exec AuthProvider_mount world_empty_token)).
Proof.
  destruct (mount_missing_or_empty_entry world_empty_token) as (H1 & H2 & _).
  - right. right. right. reflexivity.
  - split; assumption.
Defined.

(** ** [login] and [logout] composed *)

(** X5. A second [login] replaces the first one entirely: the world
    after two logins is the world after the last one alone. *)
Theorem login_overwrites_login (w : World) (u1 u2 : User) (a1 r1 a2 r2 : jsstring) :
  exec (login u2 a2 r2) (exec (login u1 a1 r1) w) = exec (login u2 a2 r2) w.
Proof.
  unfold exec. rewrite !login_eq. simpl. f_equal.
  apply map_eq. intros k. rewrite !lookup_insert.
  repeat case_decide; done.
Qed.

(** X6. [logout] undoes [login]: logging in and out gives the same world
    as logging out at once, and a second [logout] changes neither the
    store nor the session state. *)
Theorem logout_absorbs_login (w : World) (u : User) (a r : jsstring) :
  exec logout (exec (login u a r) w) = exec logout w /\
  localStorage (exec logout (exec logout w)) = localStorage (exec logout w) /\
  auth (exec logout (exec logout w)) = auth (exec logout w).
Proof.
  unfold exec. rewrite !logout_eq, login_eq. simpl.
  rewrite wipe_login, wipe_wipe. repeat split.
Qed.

(** X7. A session saved with an empty access token does not survive a
    page load: after [login(u, "", r)] the next mount ends with no
    session, and the user and refresh-token entries stay in the store. *)
Theorem login_empty_token_not_restored (w : World) (u : User) (r : jsstring) :
  let w1 := exec (login u [] r) w in
  Authenticated (auth w1) /\
  Anonymous (auth (exec AuthProvider_mount w1)) /\
  localStorage (exec AuthProvider_mount w1) = localStorage w1 /\
  localStorage (exec AuthProvider_mount w1) !! key_user = Some (JSON_stringify u) /\
  localStorage (exec AuthProvider_mount w1) !! key_refresh_token = Some r.
Proof.
  intros w1. unfold w1, exec. rewrite login_eq. simpl.
  rewrite mount_eq, restore_skip.
  - simpl. split; [split; discriminate|]. split; [split; reflexivity|].
    split; [reflexivity|].
    split; [rewrite !lookup_insert_ne by discriminate|]; apply lookup_insert_eq.
  - unfold restore_guard. simpl.
    rewrite !lookup_insert_ne by discriminate. rewrite lookup_insert_eq.
    rewrite lookup_insert_ne by discriminate. rewrite lookup_insert_eq.
    destruct (JSON_stringify u); reflexivity.
Qed.

(** X8. [isLoading] is cleared by every mount and never set again: after
    any history of mounts, logins and logouts that contains a mount,
    [isLoading] is false. *)
Theorem isLoading_false_after_mount (evs : list Event) (w : World) :
  In Mount evs ->
  isLoading (auth (run_events evs w)) = false.
Proof.
  intros Hin.
  assert (Hgen : forall evs w,
            isLoading (auth w) = false \/ In Mount evs ->
            isLoading (auth (run_events evs w)) = false).
  { clear. induction evs as [|ev evs IH]; intros w H.
    - destruct H as [H|[]]. exact H.
    - simpl. apply IH. destruct ev as [|u a r|].
      + left. unfold exec. simpl run_event.
        destruct (mount_cases w) as [[_ ->]|[(su & st & v & _ & _ & _ & _ & _ & ->)|
                                              (su & st & _ & _ & _ & _ & _ & ->)]];
          reflexivity.
      + destruct H as [H|[H|H]]; [left|discriminate H|right; exact H].
        unfold exec. simpl run_event. rewrite login_eq. exact H.
      + destruct H as [H|[H|H]]; [left|discriminate H|right; exact H].
        unfold exec. simpl run_event. rewrite logout_eq. exact H. }
  apply Hgen. right. exact Hin.
Qed.

Lemma isLoading_false_after_mount_witness :
  isLoading (auth (run_events [Login sample_user (js "a1") (js "r1"); Mount; Logout]
                              empty_world)) = false.
Proof.
  apply (isLoading_false_after_mount _ empty_world). right. left. reflexivity.
Defined.

(** ** What the request interceptor leaves alone *)

(** X9. The request interceptor touches nothing but the [Authorization]
    header of the request it is given: the store, the location and the
    session state are as before, no request object appears or disappears,
    and every request object keeps its URL, its [_retry] mark and all its
    other headers. *)
Theorem request_interceptor_frame (w : World) (config : option nat) :
  let w' := exec (request_interceptor config) w in
  localStorage w' = localStorage w /\
  location_href w' = location_href w /\
  auth w' = auth w /\
  (forall a, configs w !! a = None -> configs w' !! a = None) /\
  (forall a c, configs w !! a = Some c ->
     exists c', configs w' !! a = Some c' /\
                url c' = url c /\ _retry c' = _retry c /\
                (forall h, h <> header_Authorization -> headers c' !! h = headers c !! h) /\
                (config <> Some a -> c' = c)).
Proof.
  intros w'. unfold w', exec.
  destruct (request_interceptor_cases w config)
    as [->|[->|(r & c & t & -> & Hc & _ & _ & _ & ->)]]; simpl.
  - repeat split; auto. intros a c Hc. exists c. repeat split; auto.
  - repeat split; auto. intros a c Hc. exists c. repeat split; auto.
  - repeat split; auto.
    + intros a Ha. rewrite lookup_insert_ne; [exact Ha | congruence].
    + intros a c0 Ha. destruct (decide (r = a)) as [<-|Hne].
      * rewrite lookup_insert_eq. eexists. split; [reflexivity|].
        assert (c0 = c) as -> by congruence. simpl.
        repeat split; auto.
        -- intros h Hh. apply lookup_insert_ne. congruence.
        -- intros Hne. congruence.
      * rewrite lookup_insert_ne by assumption. exists c0. repeat split; auto.
Qed.

(** X10. Passing a request through the interceptor a second time changes
    nothing more. *)
Theorem request_interceptor_idempotent (w : World) (config : option nat) :
  exec (request_interceptor config) (exec (request_interceptor config) w)
  = exec (request_interceptor config) w.
Proof.
  unfold exec.
  destruct (request_interceptor_cases w config)
    as [H|[H|(r & c & t & -> & Hc & Hb & Ht & Hne & H)]]; rewrite H; simpl.
  - rewrite H. reflexivity.
  - rewrite H. reflexivity.
  - rewrite (request_interceptor_token _ r (set_Authorization (js "Bearer " ++ t) c) t);
      [| apply lookup_insert_eq | exact Hb | exact Ht | exact Hne].
    simpl. unfold with_configs. simpl. f_equal.
    rewrite insert_insert_eq. f_equal.
    unfold set_Authorization. simpl. f_equal. apply insert_insert_eq.
Qed.

(** The substrings of a string, as a relation. *)
Lemma startsWith_prefix p s : startsWith p s = true <-> exists post, s = p ++ post.
Proof.
  revert s. induction p as [|a p IH]; intros s; simpl.
  - split; [eauto | reflexivity].
  - destruct s as [|b s]; [split; [discriminate | intros [post [=]]]|].
    rewrite andb_true_iff, N.eqb_eq, IH. split.
    + intros [-> [post ->]]. eauto.
    + intros [post [= -> ->]]. eauto.
Qed.

Lemma includes_substring s p :
  includes s p = true <-> exists pre post, s = pre ++ p ++ post.
Proof.
  induction s as [|c s IH]; simpl.
  - rewrite orb_false_r, startsWith_prefix. split.
    + intros [post ->]. exists [], post. reflexivity.
    + intros (pre & post & H). symmetry in H.
      apply app_eq_nil in H as [-> H]. apply app_eq_nil in H as [-> ->].
      exists []. reflexivity.
  - rewrite orb_true_iff, startsWith_prefix, IH. split.
    + intros [[post ->]|(pre & post & ->)].
      * exists [], post. reflexivity.
      * exists (c :: pre), post. reflexivity.
    + intros (pre & post & H). destruct pre as [|c' pre].
      * left. exists post. exact H.
      * right. injection H as -> ->. eauto.
Qed.

(** X11. A request counts as a bootstrap request exactly when it has a
    URL in which [/register/] or [/login/] occurs somewhere, as a
    substring; a request without URL never does. *)
Theorem isAuthEndpoint_iff_fragment (c : RequestConfig) :
  isAuthEndpoint c = true <->
  exists u pre post,
    url c = Some u /\
    (u = pre ++ js "/register/" ++ post \/ u = pre ++ js "/login/" ++ post).
Proof.
  unfold isAuthEndpoint. destruct (url c) as [u|].
  - rewrite orb_true_iff, !includes_substring. split.
    + intros [(pre & post & H)|(pre & post & H)]; exists u, pre, post; auto.
    + intros (u' & pre & post & [= <-] & [H|H]); [left|right]; eauto.
  - split; [discriminate | intros (u & _ & _ & [=] & _)].
Qed.

(** X12. The interceptor changes the [Authorization] header of a request
    only if the request is not a bootstrap request and a non-empty access
    token is stored, and then to [Bearer] followed by that token: with no
    token, or an empty one, nothing is attached. *)
Theorem authorization_changes_only_with_token (w : World) (r : nat)
    (c c' : RequestConfig) :
  configs w !! r = Some c ->
  configs (exec (request_interceptor (Some r)) w) !! r = Some c' ->
  (headers c' !! header_Authorization) <> (headers c !! header_Authorization) ->
  isAuthEndpoint c = false /\
  exists t, localStorage w !! key_access_token = Some t /\ t <> [] /\
            headers c' !! header_Authorization = Some (js "Bearer " ++ t).
Proof.
  intros Hc Hc' Hh. unfold exec in Hc'.
  destruct (request_interceptor_cases w (Some r))
    as [H|[H|(r0 & c0 & t & [= <-] & Hc0 & Hb & Ht & Hne & H)]];
    rewrite H in Hc'; simpl in Hc'.
  - congruence.
  - congruence.
  - rewrite lookup_insert_eq in Hc'. injection Hc' as <-.
    assert (c0 = c) as -> by congruence.
    split; [exact Hb|]. exists t. repeat split; auto. apply lookup_insert_eq.
Qed.

Lemma authorization_changes_only_with_token_witness :
  isAuthEndpoint request_bookings = false /\
  exists t, localStorage world_logged_in !! key_access_token = Some t /\ t <> [] /\
            headers (set_Authorization (js "Bearer a1") request_bookings)
              !! header_Authorization = Some (js "Bearer " ++ t).
Proof.
  apply (authorization_changes_only_with_token world_logged_in 0 request_bookings);
    [reflexivity | reflexivity | discriminate].
Defined.

(** ** What the response interceptor leaves alone *)

(** X13. The handler empties the store or assigns to the location only
    for a 401 on a request object not yet marked while a non-empty
    refresh token is stored; for every other error (another status, no
    response, a marked request, no refresh token) the store and the
    location are as before. *)
Theorem response_error_acts_only_on_fresh_401 (w : World) (e : AxiosError) :
  localStorage (exec (response_error_interceptor (A:=Response) e) w) <> localStorage w \/
  location_href (exec (response_error_interceptor (A:=Response) e) w) <> location_href w ->
  status_is_401 e = true /\
  exists r c t,
    config e = Some r /\ configs w !! r = Some c /\ _retry c = false /\
    localStorage w !! key_refresh_token = Some t /\ t <> [].
Proof.
  unfold exec.
  destruct (response_error_cases w e)
    as [->|[->|(r & c & Hs & He & Hc & Hr & [->|(t & Ht & Hne & _)])]]; simpl.
  - intros [H|H]; congruence.
  - intros [H|H]; congruence.
  - intros [H|H]; congruence.
  - intros _. split; [exact Hs|]. exists r, c, t. repeat split; assumption.
Qed.

Lemma response_error_acts_only_on_fresh_401_witness :
  status_is_401 error_401 = true /\
  exists r c t,
    config error_401 = Some r /\ configs world_logged_in !! r = Some c /\
    _retry c = false /\
    localStorage world_logged_in !! key_refresh_token = Some t /\ t <> [].
Proof.
  apply (response_error_acts_only_on_fresh_401 world_logged_in error_401).
  right. discriminate.
Defined.

(** X14. The response interceptor never touches the in-memory session
    and never stores anything: after it, the session state is as before
    (also when the store has just been emptied), every storage entry is
    as before or is a removed session entry, and the location log is as
    before or has [/login] appended. *)
Theorem response_error_frame (w : World) (e : AxiosError) :
  let w' := exec (response_error_interceptor (A:=Response) e) w in
  auth w' = auth w /\
  (forall k, localStorage w' !! k = localStorage w !! k \/
             (session_key k /\ localStorage w' !! k = None)) /\
  (location_href w' = location_href w \/
   location_href w' = location_href w ++ [js "/login"]).
Proof.
  intros w'. unfold w', exec.
  destruct (response_error_cases w e)
    as [->|[->|(r & c & _ & _ & _ & _ & [->|(t & _ & _ & ->)])]]; simpl;
    repeat split; auto using wipe_lookup.
Qed.

(** X15. Handling the same error twice is handling it once: the second
    pass finds the request marked (or nothing to do) and changes
    nothing. *)
Theorem response_error_idempotent (w : World) (e : AxiosError) :
  exec (response_error_interceptor (A:=Response) e)
       (exec (response_error_interceptor (A:=Response) e) w)
  = exec (response_error_interceptor (A:=Response) e) w.
Proof.
  unfold exec.
  destruct (response_error_cases w e)
    as [H|[H|(r & c & Hs & He & Hc & Hr & [H|(t & _ & _ & H)])]]; rewrite H; simpl.
  - rewrite H. reflexivity.
  - rewrite H. reflexivity.
  - rewrite (response_error_retried _ e r (set_retry c)); auto.
    simpl. apply lookup_insert_eq.
  - rewrite (response_error_retried _ e r (set_retry c)); auto.
    simpl. apply lookup_insert_eq.
Qed.

(** ** The store under every history *)

Lemma run_action_storage (a : Action) (w : World) :
  localStorage (run_action a w) = localStorage w \/
  localStorage (run_action a w) = wipe (localStorage w) \/
  exists su at_ rt,
    localStorage (run_action a w) =
    <[key_refresh_token := rt]> (<[key_access_token := at_]>
      (<[key_user := su]> (localStorage w))).
Proof.
  destruct a as [[|u a r|]|config|e]; unfold run_action, run_event, exec.
  - destruct (mount_cases w) as [[_ ->]|[(su & st & v & _ & _ & _ & _ & _ & ->)|
                                         (su & st & _ & _ & _ & _ & _ & ->)]]; simpl; auto.
  - rewrite login_eq. simpl. right. right. eauto.
  - rewrite logout_eq. simpl. auto.
  - left. destruct (request_interceptor_cases w config)
      as [->|[->|(r & c & t & _ & _ & _ & _ & _ & ->)]]; reflexivity.
  - destruct (response_error_cases w e)
      as [->|[->|(r & c & _ & _ & _ & _ & [->|(t & _ & _ & ->)])]]; simpl; auto.
Qed.

(** X16. Nothing in the session context or the request pipeline reads or
    writes any storage entry but the three session entries: whatever the
    history of mounts, logins, logouts, requests and failed responses,
    every other entry is as it was. *)
Theorem other_storage_entries_untouched (acts : list Action) (w : World) (k : jsstring) :
  k <> key_user -> k <> key_access_token -> k <> key_refresh_token ->
  localStorage (run_actions acts w) !! k = localStorage w !! k.
Proof.
  intros H1 H2 H3. revert w. induction acts as [|a acts IH]; intros w; [reflexivity|].
  simpl. rewrite IH.
  destruct (run_action_storage a w) as [->|[->|(su & at_ & rt & ->)]].
  - reflexivity.
  - apply wipe_other; assumption.
  - rewrite !lookup_insert_ne; done.
Qed.

Lemma other_storage_entries_untouched_witness :
  localStorage (run_actions
    [Request (Some 0%nat); ResponseError error_401; Session Mount;
     Session (Login sample_user (js "a2") (js "r2")); Session Logout]
    world_with_theme) !! js "theme" = Some (js "dark").
Proof.
  rewrite (other_storage_entries_untouched _ world_with_theme (js "theme"));
    [reflexivity | discriminate | discriminate | discriminate].
Defined.

(** X17. The three session entries are written together and removed
    together: if they are all stored or all missing, they still are
    after any history of mounts, logins, logouts, requests and failed
    responses. *)
Theorem session_entries_stay_together (acts : list Action) (w : World) :
  keys_together (localStorage w) ->
  keys_together (localStorage (run_actions acts w)).
Proof.
  revert w. induction acts as [|a acts IH]; intros w H; [exact H|].
  simpl. apply IH.
  destruct (run_action_storage a w) as [->|[->|(su & at_ & rt & ->)]].
  - exact H.
  - right. auto using wipe_user, wipe_access, wipe_refresh.
  - left. rewrite !lookup_insert_ne by discriminate.
    rewrite lookup_insert_eq, lookup_insert_ne, !lookup_insert_eq by discriminate.
    eauto.
Qed.

Lemma session_entries_stay_together_witness :
  keys_together (localStorage (run_actions
    [Session (Login sample_user (js "a1") (js "r1")); Request (Some 0%nat);
     ResponseError error_401; Session Mount] world_anonymous)).
Proof.
  apply (session_entries_stay_together _ world_anonymous).
  right. repeat split; reflexivity.
Defined.

(** ** After the session has expired *)

(** X18. Once a 401 has emptied the store, the page load that the
    assignment of [/login] causes finds no session, although the
    in-memory session of the old page was still the one before the 401. *)
Theorem expiry_then_reload_is_anonymous (w : World) (e : AxiosError) (r : nat)
    (c : RequestConfig) (t : jsstring) :
  status_is_401 e = true ->
  config e = Some r ->
  configs w !! r = Some c ->
  _retry c = false ->
  localStorage w !! key_refresh_token = Some t ->
  t <> [] ->
  let w1 := exec (response_error_interceptor (A:=Response) e) w in
  auth w1 = auth w /\
  Anonymous (auth (exec AuthProvider_mount w1)) /\
  isLoading (auth (exec AuthProvider_mount w1)) = false /\
  localStorage (exec AuthProvider_mount w1) = wipe (localStorage w).
Proof.
  intros Hs He Hc Hr Ht Hne w1. unfold w1, exec.
  rewrite (response_error_expired w e r c Hs He Hc t Hr Ht Hne). simpl.
  rewrite mount_eq, restore_skip.
  - repeat split.
  - unfold restore_guard. simpl. rewrite wipe_user. reflexivity.
Qed.

Lemma expiry_then_reload_is_anonymous_witness :
  Authenticated (auth (exec (response_error_interceptor (A:=Response) error_401)
                            world_logged_in)) /\
  Anonymous (auth (exec AuthProvider_mount
                    (exec (response_error_interceptor (A:=Response) error_401)
                          world_logged_in))).
Proof.
  destruct (expiry_then_reload_is_anonymous world_logged_in error_401 0
              request_bookings (js "r1")) as (H1 & H2 & _);
    [reflexivity | reflexivity | reflexivity | reflexivity | reflexivity | discriminate |].
  split; [rewrite H1; split; discriminate | exact H2].
Defined.

(** X19. Once a 401 has emptied the store, the request interceptor has
    no token left to attach: every later request passes it unchanged. *)
Theorem expiry_then_request_unchanged (w : World) (e : AxiosError) (r : nat)
    (c : RequestConfig) (t : jsstring) (req : option nat) :
  status_is_401 e = true ->
  config e = Some r ->
  configs w !! r = Some c ->
  _retry c = false ->
  localStorage w !! key_refresh_token = Some t ->
  t <> [] ->
  let w1 := exec (response_error_interceptor (A:=Response) e) w in
  exec (request_interceptor req) w1 = w1.
Proof.
  intros Hs He Hc Hr Ht Hne w1. unfold exec.
  destruct (request_interceptor_cases w1 req)
    as [->|[->|(r0 & c0 & t0 & _ & _ & _ & Ht0 & _ & _)]]; try reflexivity.
  unfold w1, exec in Ht0.
  rewrite (response_error_expired w e r c Hs He Hc t Hr Ht Hne) in Ht0. simpl in Ht0.
  rewrite wipe_access in Ht0. discriminate.
Qed.

Lemma expiry_then_request_unchanged_witness :
  let w1 := exec (response_error_interceptor (A:=Response) error_401) world_logged_in in
  exec (request_interceptor (Some 0%nat)) w1 = w1.
Proof.
  apply (expiry_then_request_unchanged world_logged_in error_401 0 request_bookings (js "r1"));
    [reflexivity | reflexivity | reflexivity | reflexivity | reflexivity | discriminate].
Defined.

(** ** From [login] and [logout] to the next request *)

(** X20. The token handed to [login] is the one the next request
    carries: after [login(u, a, r)] with a non-empty [a], a request to a
    non-bootstrap endpoint leaves the interceptor with the header
    [Authorization] set to [Bearer a], whatever token was stored before. *)
Theorem login_then_request_carries_token (w : World) (u : User) (a r : jsstring)
    (req : nat) (c : RequestConfig) :
  configs w !! req = Some c ->
  isAuthEndpoint c = false ->
  a <> [] ->
  let w1 := exec (request_interceptor (Some req)) (exec (login u a r) w) in
  exists c', configs w1 !! req = Some c' /\
             headers c' !! header_Authorization = Some (js "Bearer " ++ a).
Proof.
  intros Hc Hb Hne w1. unfold w1, exec. rewrite login_eq. simpl.
  rewrite (request_interceptor_token _ req c a); auto.
  - simpl. eexists. split; [apply lookup_insert_eq|]. apply lookup_insert_eq.
  - simpl. rewrite lookup_insert_ne by discriminate. apply lookup_insert_eq.
Qed.

Lemma login_then_request_carries_token_witness :
  exists c',
    configs (exec (request_interceptor (Some 0%nat))
                  (exec (login sample_user (js "a2") (js "r2")) world_logged_in))
      !! 0%nat = Some c' /\
    headers c' !! header_Authorization = Some (js "Bearer a2").
Proof.
  apply (login_then_request_carries_token world_logged_in sample_user (js "a2") (js "r2")
           0 request_bookings); [reflexivity | reflexivity | discriminate].
Defined.

(** X21. After [logout] no request gets a token: the request interceptor
    leaves the world [logout] left exactly as it is. *)
Theorem logout_then_request_unchanged (w : World) (config : option nat) :
  exec (request_interceptor config) (exec logout w) = exec logout w.
Proof.
  unfold exec. rewrite logout_eq. simpl.
  match goal with |- (request_interceptor config ?w1).2 = _ =>
    destruct (request_interceptor_cases w1 config)
      as [->|[->|(r0 & c0 & t0 & _ & _ & _ & Ht0 & _ & _)]]; try reflexivity
  end.
  simpl in Ht0. rewrite wipe_access in Ht0. discriminate.
Qed.

(** ** pages/ProviderDashboard: the room list *)

Module ProviderDashboardFacts.
Import ProviderDashboard.


End ProviderDashboardFacts.

(** ** pages/CreateRoomPage: facilities and the uploaded image *)

Module CreateRoomPageFacts.
Import CreateRoomPage.

Lemma existsb_In (x : Z) (l : list Z) :
  existsb (fun id => (id =? x)%Z) l = true <-> In x l.
Proof.
  rewrite existsb_exists. split.
  - intros (y & Hy & E). apply Z.eqb_eq in E. subst. exact Hy.
  - intros H. exists x. split; [exact H | apply Z.eqb_refl].
Qed.

Lemma facilities_after_tick (x : Z) (s : State) :
  facilities (formData (handleFacilityChange x s)) =
  if existsb (fun id => (id =? x)%Z) (facilities (formData s))
  then List.filter (fun id => negb (id =? x)%Z) (facilities (formData s))
  else facilities (formData s) ++ [x].
Proof. reflexivity. Qed.

Lemma In_after_tick (x f : Z) (s : State) :
  (f = x ->
   (In f (facilities (formData (handleFacilityChange x s))) <->
    ~ In f (facilities (formData s)))) /\
  (f <> x ->
   (In f (facilities (formData (handleFacilityChange x s))) <->
    In f (facilities (formData s)))).
Proof.
  rewrite facilities_after_tick.
  destruct (existsb _ (facilities (formData s))) eqn:E.
  - apply existsb_In in E. split; intros Hf.
    + subst f. rewrite List.filter_In, Z.eqb_refl. simpl. split; [intros [_ [=]] | tauto].
    + rewrite List.filter_In. split; [tauto|]. intros H. split; [exact H|].
      destruct (Z.eqb_spec f x); [contradiction | reflexivity].
  - assert (Hx : ~ In x (facilities (formData s))).
    { intros H. apply existsb_In in H. congruence. }
    split; intros Hf.
    + subst f. rewrite List.in_app_iff. simpl. tauto.
    + rewrite List.in_app_iff. simpl. split; [intros [H|[H|[]]]; [exact H | congruence] | tauto].
Qed.

(** X23. Ticking a facility flips whether it is selected, changes the
    selection of no other facility, and touches nothing else: the errors,
    the chosen file and the text fields of the form are as before. *)
Theorem tick_flips_membership (x f : Z) (s : State) :
  (f = x ->
   (In f (facilities (formData (handleFacilityChange x s))) <->
    ~ In f (facilities (formData s)))) /\
  (f <> x ->
   (In f (facilities (formData (handleFacilityChange x s))) <->
    In f (facilities (formData s)))) /\
  errors (handleFacilityChange x s) = errors s /\
  with_facilities (facilities (formData s)) (formData (handleFacilityChange x s))
  = formData s.
Proof.
  destruct (In_after_tick x f s) as [H1 H2].
  split; [exact H1|]. split; [exact H2|]. split; [reflexivity|].
  destruct s as [[n h p m d l fs img] errs]. reflexivity.
Qed.

Lemma tick_flips_membership_witness :
  In 3%Z (facilities (formData (handleFacilityChange 3 initial))) /\
  ~ In 3%Z (facilities (formData (handleFacilityChange 3 (handleFacilityChange 3 initial)))).
Proof.
  destruct (tick_flips_membership 3 3 initial) as (H1 & _).
  destruct (tick_flips_membership 3 3 (handleFacilityChange 3 initial)) as (H2 & _).
  split.
  - apply (H1 eq_refl). intros [].
  - intros Hin. apply (H2 eq_refl) in Hin. apply Hin. apply (H1 eq_refl). intros [].
Defined.

Lemma mem_after_input (f : Z) (i : Input) (s : State) :
  existsb (fun id => (id =? f)%Z) (facilities (formData (handle s i))) =
  xorb (existsb (fun id => (id =? f)%Z) (facilities (formData s)))
       (match i with
        | TickFacility x => (x =? f)%Z
        | ChooseFile _ => false
        end).
Proof.
  destruct i as [file|x].
  - rewrite xorb_false_r. unfold handle, handleFileChange.
    destruct file as [file|]; [|reflexivity].
    destruct (_ <? _); [reflexivity|]. destruct (negb _); reflexivity.
  - unfold handle. apply eq_true_iff_eq.
    destruct (In_after_tick x f s) as [H1 H2].
    rewrite existsb_In. destruct (Z.eqb_spec x f) as [->|Hne].
    + rewrite (H1 eq_refl), xorb_true_r, negb_true_iff, <- not_true_iff_false, existsb_In.
      reflexivity.
    + rewrite (H2 (not_eq_sym Hne)), xorb_false_r, existsb_In. reflexivity.
Qed.

Lemma NoDup_after_input (i : Input) (s : State) :
  List.NoDup (facilities (formData s)) ->
  List.NoDup (facilities (formData (handle s i))).
Proof.
  intros H. destruct i as [file|x].
  - unfold handle, handleFileChange. destruct file as [file|]; [|exact H].
    destruct (_ <? _); [exact H|]. destruct (negb _); exact H.
  - unfold handle. rewrite facilities_after_tick.
    destruct (existsb _ (facilities (formData s))) eqn:E.
    + apply List.NoDup_filter. exact H.
    + apply List.NoDup_app. repeat split.
      * exact H.
      * constructor; [intros [] | constructor].
      * intros a Ha [<-|[]]. apply existsb_In in Ha. congruence.
Qed.

(** X24. Starting from the empty form, whatever boxes are ticked and
    files chosen, the selected facilities never contain an id twice, and
    an id is selected exactly when its box was ticked an odd number of
    times. *)
Theorem facilities_after_inputs (inputs : list Input) (f : Z) :
  List.NoDup (facilities (formData (fold_left handle inputs initial))) /\
  (In f (facilities (formData (fold_left handle inputs initial))) <->
   Nat.odd (ticks f inputs) = true).
Proof.
  assert (Hgen : forall inputs s,
            List.NoDup (facilities (formData s)) ->
            List.NoDup (facilities (formData (fold_left handle inputs s))) /\
            existsb (fun id => (id =? f)%Z)
                    (facilities (formData (fold_left handle inputs s))) =
            xorb (existsb (fun id => (id =? f)%Z) (facilities (formData s)))
                 (Nat.odd (ticks f inputs))).
  { clear inputs. induction inputs as [|i inputs IH]; intros s Hs.
    - split; [exact Hs|]. simpl. rewrite xorb_false_r. reflexivity.
    - simpl fold_left.
      destruct (IH (handle s i) (NoDup_after_input i s Hs)) as [H1 H2].
      split; [exact H1|]. rewrite H2, mem_after_input, xorb_assoc. f_equal.
      unfold ticks. simpl.
      destruct i as [file|x]; [reflexivity|].
      destruct (x =? f)%Z; [|reflexivity].
      simpl length. rewrite Nat.odd_succ, <- Nat.negb_odd.
      destruct (Nat.odd _); reflexivity. }
  destruct (Hgen inputs initial (List.NoDup_nil Z)) as [H1 H2].
  split; [exact H1|]. rewrite <- existsb_In, H2. reflexivity.
Qed.

Lemma acceptable_iff (file : File) :
  acceptable file <->
  (5 * 1024 * 1024 <? size file) = false /\ startsWith (js "image/") (type file) = true.
Proof.
  unfold acceptable. rewrite N.ltb_ge, startsWith_prefix.
  change (5 * 1024 * 1024) with 5242880. reflexivity.
Qed.

(** X25. A chosen file is taken into the form exactly when it is at most
    5 MB and of an image type, and then the image error is cleared; any
    other file leaves the form data as they were (a file taken earlier
    stays) and records a message under the image error; choosing no file
    changes nothing. *)
Theorem file_taken_iff_acceptable (file : File) (s : State) :
  (acceptable file ->
   image_upload (formData (handleFileChange (Some file) s)) = Some file /\
   errors (handleFileChange (Some file) s) !! js "image_upload" = Some []) /\
  (~ acceptable file ->
   formData (handleFileChange (Some file) s) = formData s /\
   exists msg, msg <> [] /\
     errors (handleFileChange (Some file) s) !! js "image_upload" = Some msg) /\
  handleFileChange None s = s.
Proof.
  rewrite acceptable_iff. unfold handleFileChange.
  destruct (5 * 1024 * 1024 <? size file) eqn:E1;
    [|destruct (startsWith (js "image/") (type file)) eqn:E2]; simpl.
  - split; [intros [[=] _]|]. split; [|reflexivity]. intros _.
    split; [reflexivity|]. eexists. split; [|apply lookup_insert_eq]. discriminate.
  - split; [intros _; split; [reflexivity | apply lookup_insert_eq]|].
    split; [|reflexivity]. intros H. exfalso. apply H. split; reflexivity.
  - split; [intros [_ [=]]|]. split; [|reflexivity]. intros _.
    split; [reflexivity|]. eexists. split; [|apply lookup_insert_eq]. discriminate.
Qed.

Lemma file_taken_iff_acceptable_witness :
  image_upload (formData (handleFileChange (Some (mkFile 1000 (js "image/png"))) initial))
  = Some (mkFile 1000 (js "image/png")) /\
  formData (handleFileChange (Some (mkFile 1000 (js "text/plain"))) initial)
  = formData initial.
Proof.
  split.
  - apply (file_taken_iff_acceptable (mkFile 1000 (js "image/png")) initial).
    split; [discriminate | exists (js "png"); reflexivity].
  - apply (file_taken_iff_acceptable (mkFile 1000 (js "text/plain")) initial).
    intros [_ [subtype H]]. discriminate H.
Defined.

(** X26. Starting from the empty form, whatever files are chosen and
    boxes ticked, the file the form holds (if any) is at most 5 MB and of
    an image type. *)
Theorem held_file_is_acceptable (inputs : list Input) (file : File) :
  image_upload (formData (fold_left handle inputs initial)) = Some file ->
  acceptable file.
Proof.
  assert (Hgen : forall inputs s,
            (forall f0, image_upload (formData s) = Some f0 -> acceptable f0) ->
            forall f0, image_upload (formData (fold_left handle inputs s)) = Some f0 ->
                       acceptable f0).
  { clear. induction inputs as [|i inputs IH]; intros s Hs; [exact Hs|].
    simpl. apply IH. intros f0. destruct i as [chosen|x]; simpl; [|exact (Hs f0)].
    destruct chosen as [chosen|]; [|exact (Hs f0)]. unfold handleFileChange.
    destruct (5 * 1024 * 1024 <? size chosen) eqn:E1; [exact (Hs f0)|].
    destruct (startsWith (js "image/") (type chosen)) eqn:E2; simpl; [|exact (Hs f0)].
    intros [= <-]. apply acceptable_iff. split; assumption. }
  apply (Hgen inputs initial). discriminate.
Qed.

Lemma held_file_is_acceptable_witness :
  acceptable (mkFile 1000 (js "image/png")).
Proof.
  apply (held_file_is_acceptable
           [ChooseFile (Some (mkFile 1000 (js "image/png")));
            ChooseFile (Some (mkFile 6000000 (js "image/png")));
            TickFacility 2]).
  reflexivity.
Defined.

End CreateRoomPageFacts.

(** ** pages/BookRoomPage: the date checks *)

Module BookRoomPageFacts.
Import BookRoomPage.

Lemma js_lt_app (p q a b : jsstring) :
  length p = length q ->
  js_lt (p ++ a) (q ++ b) =
  if js_lt p q then true else if js_lt q p then false else js_lt a b.
Proof.
  revert q. induction p as [|x p IH]; intros [|y q] Hlen; try discriminate Hlen.
  - simpl. destruct a, b; reflexivity.
  - injection Hlen as Hlen. simpl.
    destruct (N.ltb_spec x y), (N.ltb_spec y x); try reflexivity; try lia.
    apply IH. exact Hlen.
Qed.

Lemma digit_decomposition (n : N) :
  n = 1000 * (n / 1000) + 100 * (n / 100 mod 10) + 10 * (n / 10 mod 10) + n mod 10 /\
  n / 100 mod 10 < 10 /\ n / 10 mod 10 < 10 /\ n mod 10 < 10 /\
  n = 10 * (n / 10) + n mod 10.
Proof.
  assert (E1 : n / 100 = n / 10 / 10) by (rewrite N.Div0.div_div; reflexivity).
  assert (E2 : n / 1000 = n / 100 / 10) by (rewrite N.Div0.div_div; reflexivity).
  pose proof (N.div_mod n 10 ltac:(discriminate)).
  pose proof (N.div_mod (n / 10) 10 ltac:(discriminate)).
  pose proof (N.div_mod (n / 100) 10 ltac:(discriminate)).
  pose proof (N.mod_upper_bound n 10 ltac:(discriminate)).
  pose proof (N.mod_upper_bound (n / 10) 10 ltac:(discriminate)).
  pose proof (N.mod_upper_bound (n / 100) 10 ltac:(discriminate)).
  rewrite <- E1 in *. rewrite <- E2 in *. lia.
Qed.

Lemma digits2_spec (n : N) :
  exists a b, digits2 n = [48 + a; 48 + b] /\ n = 10 * a + b /\ b < 10.
Proof.
  destruct (digit_decomposition n) as (_ & _ & _ & H0 & E).
  exists (n / 10), (n mod 10). repeat split; assumption.
Qed.

Lemma digits4_spec (n : N) :
  exists a b c d,
    digits4 n = [48 + a; 48 + b; 48 + c; 48 + d] /\
    n = 1000 * a + 100 * b + 10 * c + d /\ b < 10 /\ c < 10 /\ d < 10.
Proof.
  destruct (digit_decomposition n) as (E & H2 & H1 & H0 & _).
  exists (n / 1000), (n / 100 mod 10), (n / 10 mod 10), (n mod 10).
  repeat split; assumption.
Qed.

Lemma js_lt_digits2 (m n : N) :
  m < 100 -> n < 100 -> js_lt (digits2 m) (digits2 n) = (m <? n).
Proof.
  intros Hm Hn.
  destruct (digits2_spec m) as (a1 & b1 & -> & Em & ?).
  destruct (digits2_spec n) as (a2 & b2 & -> & En & ?).
  cbn [js_lt].
  repeat match goal with
         | |- context [?a <? ?b] => destruct (N.ltb_spec a b)
         end; try reflexivity; exfalso; lia.
Qed.

Lemma js_lt_digits4 (m n : N) :
  m < 10000 -> n < 10000 -> js_lt (digits4 m) (digits4 n) = (m <? n).
Proof.
  intros Hm Hn.
  destruct (digits4_spec m) as (a1 & b1 & c1 & d1 & -> & Em & ? & ? & ?).
  destruct (digits4_spec n) as (a2 & b2 & c2 & d2 & -> & En & ? & ? & ?).
  cbn [js_lt].
  repeat match goal with
         | |- context [?a <? ?b] => destruct (N.ltb_spec a b)
         end; try reflexivity; exfalso; lia.
Qed.

(** On dates written [yyyy-mm-dd] the comparison of strings is the
    comparison of dates. *)
Lemma js_lt_iso (a b : Date) :
  four_digit_year a -> four_digit_year b ->
  js_lt (iso a) (iso b) = date_ltb a b.
Proof.
  intros (Ha1 & Ha2 & Ha3) (Hb1 & Hb2 & Hb3). unfold iso, date_ltb.
  rewrite js_lt_app by reflexivity.
  rewrite !js_lt_digits4 by assumption.
  destruct (year a <? year b); [reflexivity|].
  destruct (year b <? year a); [reflexivity|].
  change (js_lt (45 :: ?x) (45 :: ?y)) with (js_lt x y).
  rewrite js_lt_app by reflexivity.
  rewrite !js_lt_digits2 by assumption.
  destruct (month a <? month b); [reflexivity|].
  destruct (month b <? month a); [reflexivity|].
  change (js_lt (45 :: ?x) (45 :: ?y)) with (js_lt x y).
  apply js_lt_digits2; assumption.
Qed.

Lemma date_ltb_lt (a b : Date) : date_ltb a b = true <-> date_lt a b.
Proof.
  unfold date_ltb, date_lt.
  repeat match goal with
         | |- context [?x <? ?y] => destruct (N.ltb_spec x y)
         end; split; intros; try discriminate; try lia; reflexivity.
Qed.

(** X27. For dates with a year of at most four digits, written
    [yyyy-mm-dd], the string comparison [<] that the form uses holds
    exactly when the first date is earlier in the calendar. *)
Theorem iso_string_order_is_date_order (a b : Date) :
  four_digit_year a -> four_digit_year b ->
  (js_lt (iso a) (iso b) = true <-> date_lt a b).
Proof.
  intros Ha Hb. rewrite js_lt_iso by assumption. apply date_ltb_lt.
Qed.

Lemma iso_string_order_is_date_order_witness :
  js_lt (iso (mkDate 2024 12 31)) (iso (mkDate 2025 1 1)) = true.
Proof.
  apply (iso_string_order_is_date_order (mkDate 2024 12 31) (mkDate 2025 1 1)).
  - repeat split.
  - repeat split.
  - left. reflexivity.
Defined.

Lemma validateForm_flag (today : jsstring) (d : BookingData) :
  (validateForm today d).2 =
  truthy (check_in_date d) && negb (js_lt (check_in_date d) today) &&
  truthy (check_out_date d) && js_lt (check_in_date d) (check_out_date d).
Proof.
  unfold validateForm, js_le.
  destruct (truthy (check_in_date d)), (js_lt (check_in_date d) today),
    (truthy (check_out_date d)), (js_lt (check_in_date d) (check_out_date d));
    reflexivity.
Qed.

(** X28. [validateForm] returns true exactly when it recorded no error,
    and that is exactly when both dates are filled in, the check-in date
    is not smaller than today's and the check-out date is greater than the
    check-in date, as strings; a missing check-in date is reported as
    required. *)
Theorem validateForm_accepts_iff (today : jsstring) (d : BookingData) :
  ((validateForm today d).2 = true <-> (validateForm today d).1 = ∅) /\
  ((validateForm today d).2 = true <->
   check_in_date d <> [] /\ js_lt (check_in_date d) today = false /\
   check_out_date d <> [] /\ js_lt (check_in_date d) (check_out_date d) = true) /\
  (check_in_date d = [] ->
   (validateForm today d).1 !! js "check_in_date" = Some (js "Check-in date is required")).
Proof.
  split; [|split].
  - unfold validateForm. simpl. rewrite Nat.eqb_eq. apply map_size_empty_iff.
  - rewrite validateForm_flag, !andb_true_iff, negb_true_iff.
    destruct (check_in_date d), (check_out_date d); simpl; intuition congruence.
  - intros E. unfold validateForm. rewrite E. simpl.
    destruct (negb (truthy (check_out_date d))); [|destruct (js_le _ _)];
      rewrite ?lookup_insert_ne by discriminate; apply lookup_insert_eq.
Qed.

(** X29. For dates with a year of at most four digits, as the date inputs
    write them, [validateForm] accepts exactly when the check-in date is
    not before today and the check-out date is after the check-in date. *)
Theorem validateForm_accepts_dates (today check_in check_out : Date) :
  four_digit_year today -> four_digit_year check_in -> four_digit_year check_out ->
  ((validateForm (iso today) (mkBookingData (iso check_in) (iso check_out))).2 = true <->
   ~ date_lt check_in today /\ date_lt check_in check_out).
Proof.
  intros Ht Hi Ho. rewrite validateForm_flag. cbn [check_in_date check_out_date].
  rewrite !js_lt_iso by assumption.
  change (truthy (iso check_in)) with true. change (truthy (iso check_out)) with true.
  rewrite andb_true_r. simpl andb.
  rewrite andb_true_iff, negb_true_iff, <- not_true_iff_false, !date_ltb_lt.
  reflexivity.
Qed.

Lemma validateForm_accepts_dates_witness :
  (validateForm (iso (mkDate 2025 3 9))
                (mkBookingData (iso (mkDate 2025 3 9)) (iso (mkDate 2025 3 10)))).2 = true.
Proof.
  apply (validateForm_accepts_dates (mkDate 2025 3 9) (mkDate 2025 3 9) (mkDate 2025 3 10));
    [repeat split | repeat split | repeat split |].
  split.
  - unfold date_lt. simpl. lia.
  - unfold date_lt. simpl. lia.
Defined.

End BookRoomPageFacts.
